(** * Mock payment provider: the simulation engine of [mock-provider/server.js]

    The development embeds the provider's startup configuration, its token
    bucket, its circuit breaker, the [POST /pay] handler, the metrics and
    the [POST /reset] handler, and states the provider's documented
    properties over that embedding.  It also embeds the batching and the
    statistics of the load-test script that drives the provider.

    Conventions.
    - A JavaScript number that the code only ever uses as an integer
      (counters, epoch milliseconds, values returned by [parseInt]) is a
      [Z]; a number that may be fractional (rates, the token count, the
      running average, draws of [Math.random()]) is an exact rational
      [Q].  Comparisons of numbers are exact; binary64 rounding of sums,
      products and quotients is not modelled there, so over [Q] only
      statements that rounding preserves (orderings, bounds, counts) are
      made.  Where rounding decides, the computation is also given over
      binary64 ([Binary64]).
    - [Date.now()] and [Math.random()] are inputs of the handlers.
    - A handler of the event loop runs to its first [await] (or to its
      end) without interleaving, so [POST /pay] is two atomic steps: the
      part before the simulated delay and the part after it. *)

From Stdlib Require Import ZArith QArith Qminmax Bool List String Lia Permutation.
From Stdlib Require Import Qfield Lqa Qround.
From Stdlib Require Import PrimFloat.
Import ListNotations.

Local Open Scope Z_scope.

(** ** JavaScript values used by the configuration *)

Module Js.

(** The result of [parseInt(s)] or [parseFloat(s)]: [NaN] when the
    variable is unset or does not start with a number, a finite number
    otherwise. *)
Inductive parsed (A : Type) : Type :=
| NaN : parsed A
| Num (v : A) : parsed A.
Arguments NaN {A}.
Arguments Num {A} v.

(** Which numbers are falsy: [0] (and [-0]); [NaN] is handled by
    [or_default]. *)
Class Zeroish (A : Type) := is_zero : A -> bool.

#[export] Instance Zeroish_Z : Zeroish Z := fun v => Z.eqb v 0.
#[export] Instance Zeroish_Q : Zeroish Q := fun v => Qeq_bool v 0.

Definition falsy {A} `{Zeroish A} (p : parsed A) : bool :=
  match p with
  | NaN => true
  | Num v => is_zero v
  end.

(** [p || d] for a number [p] and a non-zero literal [d]. *)
Definition or_default {A} `{Zeroish A} (p : parsed A) (d : A) : A :=
  match p with
  | NaN => d
  | Num v => if is_zero v then d else v
  end.

(** [x < y] on numbers. *)
Definition Qltb (x y : Q) : bool := negb (Qle_bool y x).

End Js.
Import Js.

(** ** Configuration (server.js, lines 8-29) *)

(** The environment as the configuration reads it: for each numeric
    setting the value [parseInt] / [parseFloat] returns on the variable,
    and the raw string of [CIRCUIT_BREAKER]. *)
Record env : Type := {
  TPS : parsed Z;
  BURST_SIZE : parsed Z;
  MIN_LATENCY : parsed Z;
  MAX_LATENCY : parsed Z;
  TRANSIENT_FAILURE_RATE : parsed Q;
  PERMANENT_FAILURE_RATE : parsed Q;
  TIMEOUT_RATE : parsed Q;
  TIMEOUT_DURATION : parsed Z;
  CIRCUIT_BREAKER : option string;
  CIRCUIT_BREAKER_THRESHOLD : parsed Z;
  CIRCUIT_BREAKER_TIMEOUT : parsed Z
}.

Record config : Type := {
  tps : Z;
  burstSize : Z;
  minLatency : Z;
  maxLatency : Z;
  transientFailureRate : Q;
  permanentFailureRate : Q;
  timeoutRate : Q;
  timeoutDuration : Z;
  circuitBreakerEnabled : bool;
  circuitBreakerThreshold : Z;
  circuitBreakerTimeout : Z
}.

(** [process.env.CIRCUIT_BREAKER === 'true'] *)
Definition is_true_string (v : option string) : bool :=
  match v with
  | Some s => String.eqb s "true"
  | None => false
  end.

Definition resolveConfig (e : env) : config := {|
  tps := or_default (TPS e) 2;
  burstSize := or_default (BURST_SIZE e) 5;
  minLatency := or_default (MIN_LATENCY e) 200;
  maxLatency := or_default (MAX_LATENCY e) 800;
  transientFailureRate := or_default (TRANSIENT_FAILURE_RATE e) (2 # 10);
  permanentFailureRate := or_default (PERMANENT_FAILURE_RATE e) (5 # 100);
  timeoutRate := or_default (TIMEOUT_RATE e) (1 # 10);
  timeoutDuration := or_default (TIMEOUT_DURATION e) 10000;
  circuitBreakerEnabled := is_true_string (CIRCUIT_BREAKER e);
  circuitBreakerThreshold := or_default (CIRCUIT_BREAKER_THRESHOLD e) 5;
  circuitBreakerTimeout := or_default (CIRCUIT_BREAKER_TIMEOUT e) 30000
|}.

(** An environment with no variable set. *)
Definition empty_env : env := {|
  TPS := NaN; BURST_SIZE := NaN; MIN_LATENCY := NaN; MAX_LATENCY := NaN;
  TRANSIENT_FAILURE_RATE := NaN; PERMANENT_FAILURE_RATE := NaN;
  TIMEOUT_RATE := NaN; TIMEOUT_DURATION := NaN; CIRCUIT_BREAKER := None;
  CIRCUIT_BREAKER_THRESHOLD := NaN; CIRCUIT_BREAKER_TIMEOUT := NaN
|}.

(** ** Process-wide state (server.js, lines 31-52) *)

Inductive phase : Type := CLOSED | OPEN | HALF_OPEN.

Definition phase_eqb (a b : phase) : bool :=
  match a, b with
  | CLOSED, CLOSED | OPEN, OPEN | HALF_OPEN, HALF_OPEN => true
  | _, _ => false
  end.

Record Breaker : Type := {
  failures : Z;
  lastFailure : Z;
  state : phase
}.

Record Metrics : Type := {
  totalRequests : Z;
  successfulRequests : Z;
  failedRequests : Z;
  rateLimitedRequests : Z;
  timeoutRequests : Z;
  circuitBreakerTrips : Z;
  averageLatency : Q;
  startTime : Z
}.

(** The module-level variables [tokens], [lastRefill], [circuitBreaker]
    and [metrics]. *)
Record store : Type := {
  tokens : Q;
  lastRefill : Z;
  circuitBreaker : Breaker;
  metrics : Metrics
}.

Definition initialBreaker : Breaker :=
  {| failures := 0; lastFailure := 0; state := CLOSED |}.

Definition initialMetrics (now : Z) : Metrics := {|
  totalRequests := 0;
  successfulRequests := 0;
  failedRequests := 0;
  rateLimitedRequests := 0;
  timeoutRequests := 0;
  circuitBreakerTrips := 0;
  averageLatency := 0;
  startTime := now
|}.

(** The state after the module's top level has run at time [now]. *)
Definition initialStore (cfg : config) (now : Z) : store := {|
  tokens := inject_Z (burstSize cfg);
  lastRefill := now;
  circuitBreaker := initialBreaker;
  metrics := initialMetrics now
|}.

(** Assignments to one variable or property. *)
Definition set_tokens (q : Q) (s : store) : store :=
  {| tokens := q; lastRefill := lastRefill s;
     circuitBreaker := circuitBreaker s; metrics := metrics s |}.

Definition set_lastRefill (t : Z) (s : store) : store :=
  {| tokens := tokens s; lastRefill := t;
     circuitBreaker := circuitBreaker s; metrics := metrics s |}.

Definition set_circuitBreaker (b : Breaker) (s : store) : store :=
  {| tokens := tokens s; lastRefill := lastRefill s;
     circuitBreaker := b; metrics := metrics s |}.

Definition set_metrics (m : Metrics) (s : store) : store :=
  {| tokens := tokens s; lastRefill := lastRefill s;
     circuitBreaker := circuitBreaker s; metrics := m |}.

Definition incr_totalRequests (m : Metrics) : Metrics := {|
  totalRequests := totalRequests m + 1;
  successfulRequests := successfulRequests m;
  failedRequests := failedRequests m;
  rateLimitedRequests := rateLimitedRequests m;
  timeoutRequests := timeoutRequests m;
  circuitBreakerTrips := circuitBreakerTrips m;
  averageLatency := averageLatency m;
  startTime := startTime m
|}.

Definition incr_failedRequests (m : Metrics) : Metrics := {|
  totalRequests := totalRequests m;
  successfulRequests := successfulRequests m;
  failedRequests := failedRequests m + 1;
  rateLimitedRequests := rateLimitedRequests m;
  timeoutRequests := timeoutRequests m;
  circuitBreakerTrips := circuitBreakerTrips m;
  averageLatency := averageLatency m;
  startTime := startTime m
|}.

Definition incr_rateLimitedRequests (m : Metrics) : Metrics := {|
  totalRequests := totalRequests m;
  successfulRequests := successfulRequests m;
  failedRequests := failedRequests m;
  rateLimitedRequests := rateLimitedRequests m + 1;
  timeoutRequests := timeoutRequests m;
  circuitBreakerTrips := circuitBreakerTrips m;
  averageLatency := averageLatency m;
  startTime := startTime m
|}.

Definition incr_timeoutRequests (m : Metrics) : Metrics := {|
  totalRequests := totalRequests m;
  successfulRequests := successfulRequests m;
  failedRequests := failedRequests m;
  rateLimitedRequests := rateLimitedRequests m;
  timeoutRequests := timeoutRequests m + 1;
  circuitBreakerTrips := circuitBreakerTrips m;
  averageLatency := averageLatency m;
  startTime := startTime m
|}.

Definition incr_circuitBreakerTrips (m : Metrics) : Metrics := {|
  totalRequests := totalRequests m;
  successfulRequests := successfulRequests m;
  failedRequests := failedRequests m;
  rateLimitedRequests := rateLimitedRequests m;
  timeoutRequests := timeoutRequests m;
  circuitBreakerTrips := circuitBreakerTrips m + 1;
  averageLatency := averageLatency m;
  startTime := startTime m
|}.

(** Lines 210-211: the running average is updated with the old success
    count, then the count is incremented. *)
Definition recordSuccess (responseTime : Z) (m : Metrics) : Metrics := {|
  totalRequests := totalRequests m;
  successfulRequests := successfulRequests m + 1;
  failedRequests := failedRequests m;
  rateLimitedRequests := rateLimitedRequests m;
  timeoutRequests := timeoutRequests m;
  circuitBreakerTrips := circuitBreakerTrips m;
  averageLatency :=
    ((averageLatency m * inject_Z (successfulRequests m)
      + inject_Z responseTime)
     / (inject_Z (successfulRequests m) + 1))%Q;
  startTime := startTime m
|}.

(** ** Token refill (the [setInterval] callback, lines 55-62) *)

Definition refill (cfg : config) (now : Z) (s : store) : store :=
  let timePassed := (inject_Z (now - lastRefill s) / 1000)%Q in
  let tokensToAdd := (timePassed * inject_Z (tps cfg))%Q in
  set_lastRefill now
    (set_tokens (Qmin (tokens s + tokensToAdd) (inject_Z (burstSize cfg))) s).

(** ** Circuit breaker (lines 65-99) *)

(** [checkCircuitBreaker()] at time [now]: the returned boolean and the
    store it leaves. *)
Definition checkCircuitBreaker (cfg : config) (now : Z) (s : store)
  : bool * store :=
  let cb := circuitBreaker s in
  match state cb with
  | OPEN =>
      if circuitBreakerTimeout cfg <? now - lastFailure cb
      then (true,
            set_circuitBreaker
              {| failures := failures cb; lastFailure := lastFailure cb;
                 state := HALF_OPEN |} s)
      else (false, s)
  | _ => (true, s)
  end.

(** [updateCircuitBreaker(success)] at time [now]. *)
Definition updateCircuitBreaker (cfg : config) (success : bool) (now : Z)
    (s : store) : store :=
  if negb (circuitBreakerEnabled cfg) then s
  else if success then
    match state (circuitBreaker s) with
    | HALF_OPEN =>
        set_circuitBreaker
          {| failures := 0; lastFailure := lastFailure (circuitBreaker s);
             state := CLOSED |} s
    | _ => s
    end
  else
    let n := failures (circuitBreaker s) + 1 in
    if circuitBreakerThreshold cfg <=? n
    then set_metrics (incr_circuitBreakerTrips (metrics s))
           (set_circuitBreaker
              {| failures := n; lastFailure := now; state := OPEN |} s)
    else set_circuitBreaker
           {| failures := n; lastFailure := now;
              state := state (circuitBreaker s) |} s.

(** ** The [POST /pay] handler (lines 152-223) *)

Inductive outcome : Type :=
| TIMEOUT | PERMANENT_FAILURE | TRANSIENT_FAILURE | SUCCESS.

(** Responses, by status and kind. *)
Inductive response : Type :=
| Res200 (latency : Z)      (* status: 'success' *)
| Res408                    (* Request timeout *)
| Res429                    (* Rate limit exceeded *)
| Res500                    (* Internal server error *)
| Res503_breaker            (* circuit breaker open *)
| Res503_transient          (* Transient provider error, retryable *)
| ResReset.                 (* answer of POST /reset *)

(** Lines 180-204: three successive tests, each on a fresh value of
    [Math.random()]; [r_to], [r_perm] and [r_trans] are the values the
    three calls return (a later call is only made when the earlier tests
    failed). *)
Definition decide (cfg : config) (r_to r_perm r_trans : Q) : outcome :=
  if Qltb r_to (timeoutRate cfg) then TIMEOUT
  else if Qltb r_perm (permanentFailureRate cfg) then PERMANENT_FAILURE
  else if Qltb r_trans (transientFailureRate cfg) then TRANSIENT_FAILURE
  else SUCCESS.

(** Line 177. *)
Definition latencyOf (cfg : config) (r_lat : Q) : Q :=
  (inject_Z (minLatency cfg)
   + r_lat * (inject_Z (maxLatency cfg) - inject_Z (minLatency cfg)))%Q.

(** The four values of [Math.random()] one request consumes before its
    delay. *)
Record draws : Type := {
  r_lat : Q;
  r_to : Q;
  r_perm : Q;
  r_trans : Q
}.

(** A request suspended at its [await]: the branch it is in, its
    [startTime] and the delay of its timer. *)
Record pending : Type := {
  p_outcome : outcome;
  p_start : Z;
  p_delay : Q
}.

(** The handler up to its [await]: either it answers at once (503 from
    the breaker, 429 from the rate limiter) or it is suspended. *)
Definition pay_begin (cfg : config) (now : Z) (d : draws) (s : store)
  : store * (response + pending) :=
  let s1 := set_metrics (incr_totalRequests (metrics s)) s in
  let (ok, s2) := checkCircuitBreaker cfg now s1 in
  if negb ok then
    (set_metrics (incr_failedRequests (metrics s2)) s2, inl Res503_breaker)
  else if Qltb (tokens s2) 1 then
    (set_metrics (incr_rateLimitedRequests (metrics s2)) s2, inl Res429)
  else
    let s3 := set_tokens (tokens s2 - 1)%Q s2 in
    let latency := latencyOf cfg (r_lat d) in
    let o := decide cfg (r_to d) (r_perm d) (r_trans d) in
    let delay :=
      match o with
      | TIMEOUT => inject_Z (timeoutDuration cfg)
      | _ => latency
      end in
    (s3, inr {| p_outcome := o; p_start := now; p_delay := delay |}).

(** The handler after its [await], at time [now]. *)
Definition pay_finish (cfg : config) (now : Z) (p : pending) (s : store)
  : store * response :=
  match p_outcome p with
  | TIMEOUT =>
      (updateCircuitBreaker cfg false now
         (set_metrics (incr_timeoutRequests (metrics s)) s),
       Res408)
  | PERMANENT_FAILURE =>
      (updateCircuitBreaker cfg false now
         (set_metrics (incr_failedRequests (metrics s)) s),
       Res500)
  | TRANSIENT_FAILURE =>
      (updateCircuitBreaker cfg false now
         (set_metrics (incr_failedRequests (metrics s)) s),
       Res503_transient)
  | SUCCESS =>
      let responseTime := now - p_start p in
      (updateCircuitBreaker cfg true now
         (set_metrics (recordSuccess responseTime (metrics s)) s),
       Res200 responseTime)
  end.

(** ** The [POST /reset] handler (lines 226-247) *)

Definition reset (cfg : config) (now : Z) (s : store) : store := {|
  tokens := inject_Z (burstSize cfg);
  lastRefill := lastRefill s;
  circuitBreaker := initialBreaker;
  metrics := initialMetrics now
|}.

(** ** The event loop *)

(** The process: the clock of the last event, the module-level
    variables, and the requests suspended at their [await]. *)
Record world : Type := {
  clock : Z;
  globals : store;
  inflight : list pending
}.

Inductive event : Type :=
| Tick (now : Z)                      (* the refill interval fires *)
| PayBegin (now : Z) (d : draws)      (* POST /pay arrives *)
| PayFinish (k : nat) (now : Z)       (* the timer of the k-th suspended request fires *)
| PostReset (now : Z).                    (* POST /reset arrives *)

Definition event_time (e : event) : Z :=
  match e with
  | Tick now | PayBegin now _ | PayFinish _ now | PostReset now => now
  end.

Fixpoint remove_nth {A} (k : nat) (l : list A) : list A :=
  match l, k with
  | [], _ => []
  | _ :: t, O => t
  | h :: t, S k' => h :: remove_nth k' t
  end.

(** One handler run.  [None]: the event cannot happen in [w] (the clock
    would go back, there is no such suspended request, or its timer is
    not due). *)
Definition exec (cfg : config) (e : event) (w : world)
  : option (world * option response) :=
  if event_time e <? clock w then None
  else
    match e with
    | Tick now =>
        Some ({| clock := now; globals := refill cfg now (globals w);
                 inflight := inflight w |}, None)
    | PayBegin now d =>
        match pay_begin cfg now d (globals w) with
        | (s', inl r) =>
            Some ({| clock := now; globals := s'; inflight := inflight w |},
                  Some r)
        | (s', inr p) =>
            Some ({| clock := now; globals := s';
                     inflight := inflight w ++ [p] |}, None)
        end
    | PayFinish k now =>
        match nth_error (inflight w) k with
        | Some p =>
            if Qle_bool (inject_Z (p_start p) + p_delay p) (inject_Z now)
            then
              let (s', r) := pay_finish cfg now p (globals w) in
              Some ({| clock := now; globals := s';
                       inflight := remove_nth k (inflight w) |}, Some r)
            else None
        | None => None
        end
    | PostReset now =>
        Some ({| clock := now; globals := reset cfg now (globals w);
                 inflight := inflight w |}, Some ResReset)
    end.

(** The process right after startup at time [t0]. *)
Definition boot (cfg : config) (t0 : Z) : world :=
  {| clock := t0; globals := initialStore cfg t0; inflight := [] |}.

(** Startup: the module's top level either throws or ends in
    [app.listen].  The configuration object is built without any check,
    so the top level never throws. *)
Inductive startup_result : Type :=
| Crashed
| Listening (cfg : config) (w : world).

Definition startup (e : env) (t0 : Z) : startup_result :=
  let cfg := resolveConfig e in Listening cfg (boot cfg t0).

Inductive reachable (cfg : config) : world -> Prop :=
| reach_boot : forall t0, reachable cfg (boot cfg t0)
| reach_step : forall w e w' r,
    reachable cfg w -> exec cfg e w = Some (w', r) -> reachable cfg w'.

(** A sequence of events, with the responses it produces. *)
Fixpoint run (cfg : config) (es : list event) (w : world)
  : option (world * list response) :=
  match es with
  | [] => Some (w, [])
  | e :: es' =>
      match exec cfg e w with
      | None => None
      | Some (w', r) =>
          match run cfg es' w' with
          | None => None
          | Some (w'', rs) =>
              Some (w'', match r with Some x => x :: rs | None => rs end)
          end
      end
  end.

(** The worlds a sequence of events goes through, the first one
    included. *)
Fixpoint trace (cfg : config) (es : list event) (w : world) : list world :=
  w :: match es with
       | [] => []
       | e :: es' =>
           match exec cfg e w with
           | None => []
           | Some (w', _) => trace cfg es' w'
           end
       end.

Definition phase_of (w : world) : phase := state (circuitBreaker (globals w)).

Definition trips_of (w : world) : Z := circuitBreakerTrips (metrics (globals w)).

(** Number of steps of a trace that enter [OPEN] from another phase. *)
Fixpoint open_transitions (ws : list world) : Z :=
  match ws with
  | w :: ((w' :: _) as rest) =>
      (if negb (phase_eqb (phase_of w) OPEN) && phase_eqb (phase_of w') OPEN
       then 1 else 0) + open_transitions rest
  | _ => 0
  end.

(** ** The documentation's wording of two policies, for comparison *)

(** Outcome selection as documented: one draw [r] and cumulative bands
    in the order timeout, permanent, transient, success. *)
Definition spec_bands (cfg : config) (r : Q) : outcome :=
  let t := timeoutRate cfg in
  let p := permanentFailureRate cfg in
  let f := transientFailureRate cfg in
  if Qltb r t then TIMEOUT
  else if Qltb r (t + p)%Q then PERMANENT_FAILURE
  else if Qltb r (t + p + f)%Q then TRANSIENT_FAILURE
  else SUCCESS.

Definition given {A} (test : A -> bool) (p : parsed A) : bool :=
  match p with
  | NaN => false
  | Num v => test v
  end.

(** Configuration input the documentation calls invalid: a negative
    failure rate, failure rates summing to more than 1, a non-positive
    tokens-per-second value. *)
Definition invalid_input (e : env) : bool :=
  let c := resolveConfig e in
  given (fun v => Qltb v 0) (TRANSIENT_FAILURE_RATE e)
  || given (fun v => Qltb v 0) (PERMANENT_FAILURE_RATE e)
  || given (fun v => Qltb v 0) (TIMEOUT_RATE e)
  || Qltb 1 (timeoutRate c + permanentFailureRate c + transientFailureRate c)%Q
  || given (fun v => v <=? 0) (TPS e).

(** Environments used as examples. *)
Definition env_negative_rate : env := {|
  TPS := NaN; BURST_SIZE := NaN; MIN_LATENCY := NaN; MAX_LATENCY := NaN;
  TRANSIENT_FAILURE_RATE := Num (- (1 # 2))%Q; PERMANENT_FAILURE_RATE := NaN;
  TIMEOUT_RATE := NaN; TIMEOUT_DURATION := NaN; CIRCUIT_BREAKER := None;
  CIRCUIT_BREAKER_THRESHOLD := NaN; CIRCUIT_BREAKER_TIMEOUT := NaN
|}.

Definition env_rates_over_one : env := {|
  TPS := NaN; BURST_SIZE := NaN; MIN_LATENCY := NaN; MAX_LATENCY := NaN;
  TRANSIENT_FAILURE_RATE := Num (9 # 10); PERMANENT_FAILURE_RATE := Num (9 # 10);
  TIMEOUT_RATE := NaN; TIMEOUT_DURATION := NaN; CIRCUIT_BREAKER := None;
  CIRCUIT_BREAKER_THRESHOLD := NaN; CIRCUIT_BREAKER_TIMEOUT := NaN
|}.

Definition env_negative_tps : env := {|
  TPS := Num (-1); BURST_SIZE := NaN; MIN_LATENCY := NaN; MAX_LATENCY := NaN;
  TRANSIENT_FAILURE_RATE := NaN; PERMANENT_FAILURE_RATE := NaN;
  TIMEOUT_RATE := NaN; TIMEOUT_DURATION := NaN; CIRCUIT_BREAKER := None;
  CIRCUIT_BREAKER_THRESHOLD := NaN; CIRCUIT_BREAKER_TIMEOUT := NaN
|}.


Definition env_all_zero : env := {|
  TPS := Num 0; BURST_SIZE := Num 0; MIN_LATENCY := Num 0; MAX_LATENCY := Num 0;
  TRANSIENT_FAILURE_RATE := Num 0%Q; PERMANENT_FAILURE_RATE := Num 0%Q;
  TIMEOUT_RATE := Num 0%Q; TIMEOUT_DURATION := Num 0; CIRCUIT_BREAKER := None;
  CIRCUIT_BREAKER_THRESHOLD := Num 0; CIRCUIT_BREAKER_TIMEOUT := Num 0
|}.

(** Breaker enabled, threshold [n], everything else default. *)
Definition env_breaker (n : Z) : env := {|
  TPS := NaN; BURST_SIZE := NaN; MIN_LATENCY := NaN; MAX_LATENCY := NaN;
  TRANSIENT_FAILURE_RATE := NaN; PERMANENT_FAILURE_RATE := NaN;
  TIMEOUT_RATE := NaN; TIMEOUT_DURATION := NaN; CIRCUIT_BREAKER := Some "true"%string;
  CIRCUIT_BREAKER_THRESHOLD := Num n; CIRCUIT_BREAKER_TIMEOUT := NaN
|}.

(** Draws that send a request into the given branch under the default
    rates, with a latency of 500 ms. *)
Definition draws_for (o : outcome) : draws :=
  match o with
  | TIMEOUT =>
      {| r_lat := 1 # 2; r_to := 5 # 100; r_perm := 1 # 2; r_trans := 1 # 2 |}
  | PERMANENT_FAILURE =>
      {| r_lat := 1 # 2; r_to := 12 # 100; r_perm := 1 # 100; r_trans := 1 # 2 |}
  | TRANSIENT_FAILURE =>
      {| r_lat := 1 # 2; r_to := 30 # 100; r_perm := 1 # 2; r_trans := 1 # 10 |}
  | SUCCESS =>
      {| r_lat := 1 # 2; r_to := 99 # 100; r_perm := 99 # 100; r_trans := 99 # 100 |}
  end.

(** ** Invariants and example runs *)

(** Outside [CLOSED] the breaker is enabled and the failure count has
    reached the threshold. *)
Definition breaker_ok (cfg : config) (s : store) : Prop :=
  state (circuitBreaker s) <> CLOSED ->
  circuitBreakerEnabled cfg = true
  /\ circuitBreakerThreshold cfg <= failures (circuitBreaker s).



Definition sumZ (l : list Z) : Z := fold_right Z.add 0 l.

(** Successive successful completions with the given response times. *)
Definition recordAll (ls : list Z) (m : Metrics) : Metrics :=
  fold_left (fun acc l => recordSuccess l acc) ls m.

(** Three requests arrive together, then each fails permanently after
    its 500 ms latency. *)
Definition overlapping_failures : list event :=
  [ PayBegin 0 (draws_for PERMANENT_FAILURE);
    PayBegin 0 (draws_for PERMANENT_FAILURE);
    PayBegin 0 (draws_for PERMANENT_FAILURE);
    PayFinish 0 500; PayFinish 0 500; PayFinish 0 500 ].

(** One failure opens the breaker (threshold 1); after the open window
    three requests arrive before any of them completes. *)
Definition probes_after_window : list event :=
  [ PayBegin 0 (draws_for PERMANENT_FAILURE);
    PayFinish 0 500;
    PayBegin 31000 (draws_for SUCCESS);
    PayBegin 31001 (draws_for SUCCESS);
    PayBegin 31002 (draws_for SUCCESS) ].

(** One request that times out. *)
Definition one_timeout : list event :=
  [ PayBegin 0 (draws_for TIMEOUT); PayFinish 0 10000 ].

(** Six requests arrive together on a full bucket of five, then the
    refill interval fires twice. *)
Definition burst_then_refill : list event :=
  [ PayBegin 0 (draws_for SUCCESS); PayBegin 0 (draws_for SUCCESS);
    PayBegin 0 (draws_for SUCCESS); PayBegin 0 (draws_for SUCCESS);
    PayBegin 0 (draws_for SUCCESS); PayBegin 0 (draws_for SUCCESS);
    Tick 100; Tick 5000 ].



(** Two requests fail one after the other (threshold 2), a third is
    refused while the breaker is open, a fourth arrives after the open
    window and succeeds. *)
Definition open_then_recover : list event :=
  [ PayBegin 0 (draws_for PERMANENT_FAILURE); PayFinish 0 500;
    PayBegin 600 (draws_for TRANSIENT_FAILURE); PayFinish 0 1100;
    PayBegin 2000 (draws_for SUCCESS);
    PayBegin 31101 (draws_for SUCCESS); PayFinish 0 31601 ].

(** ** The read-only endpoints (lines 102-144) *)


(** ** Vocabulary for statements about runs *)

Definition is_reset (e : event) : bool :=
  match e with
  | PostReset _ => true
  | _ => false
  end.

(** No [POST /reset] among the events. *)
Definition reset_free (es : list event) : bool :=
  forallb (fun e => negb (is_reset e)) es.

(** Requests that have been answered, by the four outcome counters. *)
Definition completed (m : Metrics) : Z :=
  successfulRequests m + failedRequests m + rateLimitedRequests m
  + timeoutRequests m.

(** The [latency] fields of the success responses, in order. *)
Definition success_latencies (rs : list response) : list Z :=
  flat_map (fun r => match r with Res200 l => [l] | _ => [] end) rs.

(** Every counter of [m] is at most its value in [m']. *)
Definition counters_le (m m' : Metrics) : Prop :=
  totalRequests m <= totalRequests m'
  /\ successfulRequests m <= successfulRequests m'
  /\ failedRequests m <= failedRequests m'
  /\ rateLimitedRequests m <= rateLimitedRequests m'
  /\ timeoutRequests m <= timeoutRequests m'
  /\ circuitBreakerTrips m <= circuitBreakerTrips m'.

Definition counters_nonneg (m : Metrics) : Prop :=
  counters_le (initialMetrics 0) m.

(** A response that follows a call [updateCircuitBreaker(false)]: 408,
    500 or the transient 503.  The 503 of an open breaker is not one. *)
Definition is_failure_response (r : response) : bool :=
  match r with
  | Res408 | Res500 | Res503_transient => true
  | _ => false
  end.

Definition failure_responses (rs : list response) : Z :=
  Z.of_nat (List.length (filter is_failure_response rs)).

(** With [c] failures reported since startup: the trip counter is 0
    exactly as long as [c] has not reached the threshold, and until then
    the breaker is CLOSED with failure count [c]. *)
Definition streak_ok (cfg : config) (c : Z) (s : store) : Prop :=
  0 <= c
  /\ 0 <= circuitBreakerTrips (metrics s)
  /\ (circuitBreakerTrips (metrics s) = 0 ->
      state (circuitBreaker s) = CLOSED
      /\ failures (circuitBreaker s) = c
      /\ (c = 0 \/ c < circuitBreakerThreshold cfg))
  /\ (0 < circuitBreakerTrips (metrics s) ->
      1 <= c /\ circuitBreakerThreshold cfg <= c).

(** Outside [CLOSED] the breaker has tripped at least once since the
    last reset. *)
Definition tripped_ok (s : store) : Prop :=
  0 <= circuitBreakerTrips (metrics s)
  /\ 0 <= failures (circuitBreaker s)
  /\ (state (circuitBreaker s) <> CLOSED -> 1 <= circuitBreakerTrips (metrics s)).

(** The breaker has never been touched. *)
Definition breaker_idle (s : store) : Prop :=
  circuitBreaker s = initialBreaker /\ circuitBreakerTrips (metrics s) = 0.

(** [CIRCUIT_BREAKER] set to something other than the enabling string. *)
Definition env_breaker_uppercase : env := {|
  TPS := NaN; BURST_SIZE := NaN; MIN_LATENCY := NaN; MAX_LATENCY := NaN;
  TRANSIENT_FAILURE_RATE := NaN; PERMANENT_FAILURE_RATE := NaN;
  TIMEOUT_RATE := NaN; TIMEOUT_DURATION := NaN; CIRCUIT_BREAKER := Some "TRUE"%string;
  CIRCUIT_BREAKER_THRESHOLD := Num 1; CIRCUIT_BREAKER_TIMEOUT := NaN
|}.

(** The three failure rates set to a negative value. *)
Definition env_no_failures : env := {|
  TPS := NaN; BURST_SIZE := NaN; MIN_LATENCY := NaN; MAX_LATENCY := NaN;
  TRANSIENT_FAILURE_RATE := Num (- (1))%Q; PERMANENT_FAILURE_RATE := Num (- (1))%Q;
  TIMEOUT_RATE := Num (- (1))%Q; TIMEOUT_DURATION := NaN; CIRCUIT_BREAKER := None;
  CIRCUIT_BREAKER_THRESHOLD := NaN; CIRCUIT_BREAKER_TIMEOUT := NaN
|}.

(** A store whose breaker opened at time 500 after one failure. *)
Definition store_open_at_500 (cfg : config) : store :=
  set_circuitBreaker {| failures := 1; lastFailure := 500; state := OPEN |}
    (initialStore cfg 0).

(** Two requests are admitted, the provider is reset, then both
    complete. *)
Definition reset_with_requests_in_flight : list event :=
  [ PayBegin 0 (draws_for SUCCESS); PayBegin 0 (draws_for PERMANENT_FAILURE);
    PostReset 100; PayFinish 0 500; PayFinish 0 500 ].

(** The step is the second half of a request that ends in a failure
    (408, 500 or the transient 503), i.e. one that calls
    [updateCircuitBreaker(false)]. *)
Definition failure_report (e : event) (r : option response) : bool :=
  match e, r with
  | PayFinish _ _, Some (Res408 | Res500 | Res503_transient) => true
  | _, _ => false
  end.

(** Number of failure reports of a run that are made while the phase is
    already [OPEN]. *)
Fixpoint reports_while_open (cfg : config) (es : list event) (w : world) : Z :=
  match es with
  | [] => 0
  | e :: es' =>
      match exec cfg e w with
      | None => 0
      | Some (w', r) =>
          (if phase_eqb (phase_of w) OPEN && failure_report e r then 1 else 0)
          + reports_while_open cfg es' w'
      end
  end.

(** ** The load-test client (the script that follows the provider's README) *)

Module Harness.

(** [result.status]: an HTTP status, or the string ['TIMEOUT'] when no
    response came back. *)
Inductive status : Type :=
| Code (c : Z)
| NoResponse.

(** What [makePaymentRequest] returns, without the payload. *)
Record result : Type := {
  success : bool;
  http : status;
  latency : Z
}.

Record scenarioStats : Type := {
  successful : Z;
  failed : Z;
  rateLimited : Z;
  timeouts : Z;
  averageLatency : Q
}.

Definition emptyStats : scenarioStats :=
  {| successful := 0; failed := 0; rateLimited := 0; timeouts := 0;
     averageLatency := 0 |}.

Definition is_code (c : Z) (st : status) : bool :=
  match st with
  | Code c' => Z.eqb c' c
  | NoResponse => false
  end.

(** The body of [results.forEach] in [runScenario]. *)
Definition record_result (st : scenarioStats) (r : result) : scenarioStats :=
  let successful' := successful st + (if success r then 1 else 0) in
  let failed' := failed st + (if negb (success r) then 1 else 0) in
  let rateLimited' :=
    if negb (success r) && is_code 429 (http r)
    then rateLimited st + 1 else rateLimited st in
  let timeouts' :=
    if negb (success r) && negb (is_code 429 (http r)) && is_code 408 (http r)
    then timeouts st + 1 else timeouts st in
  let averageLatency' :=
    if Z.eqb (latency r) 0 then averageLatency st
    else ((averageLatency st * inject_Z (successful' + failed' - 1)
           + inject_Z (latency r))
          / inject_Z (successful' + failed'))%Q in
  {| successful := successful'; failed := failed';
     rateLimited := rateLimited'; timeouts := timeouts';
     averageLatency := averageLatency' |}.

Definition record_results (rs : list result) (st : scenarioStats)
  : scenarioStats :=
  fold_left record_result rs st.

(** The global [stats] counters that [runScenario] updates per batch. *)
Record globalStats : Type := {
  g_totalRequests : Z;
  g_successfulRequests : Z;
  g_failedRequests : Z;
  g_rateLimitedRequests : Z;
  g_timeoutRequests : Z
}.

Definition count (f : result -> bool) (rs : list result) : Z :=
  Z.of_nat (List.length (filter f rs)).

(** "Update global stats" for one batch of [batchSize] requests. *)
Definition update_global (batchSize : Z) (rs : list result) (g : globalStats)
  : globalStats := {|
  g_totalRequests := g_totalRequests g + batchSize;
  g_successfulRequests := g_successfulRequests g + count success rs;
  g_failedRequests := g_failedRequests g + count (fun r => negb (success r)) rs;
  g_rateLimitedRequests :=
    g_rateLimitedRequests g
    + count (fun r => negb (success r) && is_code 429 (http r)) rs;
  g_timeoutRequests :=
    g_timeoutRequests g
    + count (fun r => negb (success r) && is_code 408 (http r)) rs
|}.

(** One turn of the batch loop: the scenario statistics go on from where
    the previous batch left them, and the global statistics are updated
    with the batch ([batchSize] is the number of results of the batch). *)
Definition run_batch (acc : scenarioStats * globalStats) (rs : list result)
  : scenarioStats * globalStats :=
  (record_results rs (fst acc),
   update_global (Z.of_nat (List.length rs)) rs (snd acc)).

(** The whole loop, on the results of the successive batches. *)
Definition run_batches (bs : list (list result))
    (acc : scenarioStats * globalStats) : scenarioStats * globalStats :=
  fold_left run_batch bs acc.

(** [Math.ceil(scenario.requests / scenario.concurrent)] *)
Definition batches (requests concurrent : Z) : Z :=
  Qceiling (inject_Z requests / inject_Z concurrent).

(** [Math.min(scenario.concurrent, scenario.requests - batch * scenario.concurrent)] *)
Definition batchSize (requests concurrent batch : Z) : Z :=
  Z.min concurrent (requests - batch * concurrent).

(** The batch sizes the [for] loop goes through, [batch = 0 .. batches - 1]. *)
Definition batchSizes (requests concurrent : Z) : list Z :=
  map (fun i => batchSize requests concurrent (Z.of_nat i))
    (seq 0 (Z.to_nat (batches requests concurrent))).

Definition latencies (rs : list result) : list Z := map latency rs.

(** Three results: a success, a rate-limited request, a timeout. *)
Definition sample_results : list result :=
  [ {| success := true; http := Code 200; latency := 420 |};
    {| success := false; http := Code 429; latency := 3 |};
    {| success := false; http := Code 408; latency := 10002 |} ].

(** The three sample results in two batches. *)
Definition sample_batches : list (list result) :=
  [ [ {| success := true; http := Code 200; latency := 420 |};
      {| success := false; http := Code 429; latency := 3 |} ];
    [ {| success := false; http := Code 408; latency := 10002 |} ] ].

End Harness.

(** ** The running average in binary64 *)

Module Binary64.

(** A non-negative integer below 2^53 as the JavaScript number that
    holds it. *)
Fixpoint number_of_positive (p : positive) : float :=
  match p with
  | xH => 1%float
  | xO q => PrimFloat.mul 2%float (number_of_positive q)
  | xI q => PrimFloat.add (PrimFloat.mul 2%float (number_of_positive q)) 1%float
  end.

Definition number_of_Z (z : Z) : float :=
  match z with
  | Z0 => 0%float
  | Zpos p => number_of_positive p
  | Zneg p => PrimFloat.opp (number_of_positive p)
  end.

(** [metrics.averageLatency] and [metrics.successfulRequests] as the
    numbers they are. *)
Record average : Type := {
  averageLatency : float;
  successfulRequests : float
}.


(** Lines 210-211, every operation rounded to binary64. *)
Definition recordSuccess (responseTime : Z) (a : average) : average := {|
  averageLatency :=
    PrimFloat.div
      (PrimFloat.add
         (PrimFloat.mul (averageLatency a) (successfulRequests a))
         (number_of_Z responseTime))
      (PrimFloat.add (successfulRequests a) 1%float);
  successfulRequests := PrimFloat.add (successfulRequests a) 1%float
|}.

Definition recordAll (ls : list Z) (a : average) : average :=
  fold_left (fun acc l => recordSuccess l acc) ls a.


End Binary64.

(** * Properties *)

(** ** The model on the documented scenarios *)

Example default_configuration :
  resolveConfig empty_env
  = {| tps := 2; burstSize := 5; minLatency := 200; maxLatency := 800;
       transientFailureRate := 2 # 10; permanentFailureRate := 5 # 100;
       timeoutRate := 1 # 10; timeoutDuration := 10000;
       circuitBreakerEnabled := false; circuitBreakerThreshold := 5;
       circuitBreakerTimeout := 30000 |}.
Proof. reflexivity. Qed.

Example sixth_request_of_a_burst_is_rate_limited :
  let cfg := resolveConfig empty_env in
  match run cfg (firstn 6 burst_then_refill) (boot cfg 0) with
  | Some (w, rs) =>
      rs = [Res429] /\ List.length (inflight w) = 5%nat
      /\ Qeq_bool (tokens (globals w)) 0 = true
      /\ rateLimitedRequests (metrics (globals w)) = 1
      /\ totalRequests (metrics (globals w)) = 6
  | None => False
  end.
Proof. vm_compute. repeat split. Qed.

Example breaker_opens_and_recovers :
  let cfg := resolveConfig (env_breaker 2) in
  match run cfg open_then_recover (boot cfg 0) with
  | Some (w, rs) =>
      rs = [Res500; Res503_transient; Res503_breaker; Res200 500]
      /\ phase_of w = CLOSED
      /\ failures (circuitBreaker (globals w)) = 0
      /\ trips_of w = 1
      /\ failedRequests (metrics (globals w)) = 3
      /\ successfulRequests (metrics (globals w)) = 1
      /\ Qeq_bool (averageLatency (metrics (globals w))) 500 = true
  | None => False
  end
  /\ open_transitions (trace cfg open_then_recover (boot cfg 0)) = 1.
Proof. vm_compute. repeat split. Qed.

Example timer_cannot_fire_early :
  let cfg := resolveConfig empty_env in
  run cfg [PayBegin 0 (draws_for SUCCESS); PayFinish 0 499] (boot cfg 0) = None.
Proof. vm_compute. reflexivity. Qed.

(** ** Comparisons *)

Lemma Qltb_lt (x y : Q) : Qltb x y = true <-> (x < y)%Q.
Proof.
  unfold Qltb. rewrite negb_true_iff. split; intro H.
  - apply Qnot_le_lt. intro L. apply Qle_bool_iff in L. congruence.
  - destruct (Qle_bool y x) eqn:E; [|reflexivity].
    apply Qle_bool_iff in E. exfalso. exact (Qlt_not_le _ _ H E).
Qed.

Lemma Qltb_ge (x y : Q) : Qltb x y = false <-> (y <= x)%Q.
Proof.
  unfold Qltb. rewrite negb_false_iff. apply Qle_bool_iff.
Qed.

(** ** Configuration *)

Lemma or_default_Z_nonzero (p : parsed Z) (d : Z) :
  d <> 0 -> or_default p d <> 0.
Proof.
  intros Hd. destruct p as [|v]; simpl; [exact Hd|].
  unfold is_zero, Zeroish_Z. destruct (Z.eqb_spec v 0); assumption.
Qed.

Lemma or_default_Q_nonzero (p : parsed Q) (d : Q) :
  ~ (d == 0)%Q -> ~ (or_default p d == 0)%Q.
Proof.
  intros Hd. destruct p as [|v]; simpl; [exact Hd|].
  unfold is_zero, Zeroish_Q. destruct (Qeq_bool v 0) eqn:E; [exact Hd|].
  apply Qeq_bool_neq. exact E.
Qed.

Lemma or_default_falsy {A} `{Zeroish A} (p : parsed A) (d : A) :
  falsy p = true -> or_default p d = d.
Proof.
  destruct p as [|v]; simpl; [reflexivity|]. intros ->. reflexivity.
Qed.

Lemma or_default_truthy {A} `{Zeroish A} (v d : A) :
  is_zero v = false -> or_default (Num v) d = v.
Proof.
  simpl. intros ->. reflexivity.
Qed.

(** C10. A numeric setting whose environment value parses to 0 or does
    not parse resolves to its default, for each of the ten numeric
    settings; hence no failure rate, and neither [tps] nor [burstSize],
    is ever 0 in a resolved configuration, and [TIMEOUT_RATE=0] gives
    0.1. *)
Theorem zero_or_unparsable_resolves_to_default (e : env) :
  let c := resolveConfig e in
  (falsy (TPS e) = true -> tps c = 2)
  /\ (falsy (BURST_SIZE e) = true -> burstSize c = 5)
  /\ (falsy (MIN_LATENCY e) = true -> minLatency c = 200)
  /\ (falsy (MAX_LATENCY e) = true -> maxLatency c = 800)
  /\ (falsy (TRANSIENT_FAILURE_RATE e) = true -> transientFailureRate c = 2 # 10)
  /\ (falsy (PERMANENT_FAILURE_RATE e) = true -> permanentFailureRate c = 5 # 100)
  /\ (falsy (TIMEOUT_RATE e) = true -> timeoutRate c = 1 # 10)
  /\ (falsy (TIMEOUT_DURATION e) = true -> timeoutDuration c = 10000)
  /\ (falsy (CIRCUIT_BREAKER_THRESHOLD e) = true -> circuitBreakerThreshold c = 5)
  /\ (falsy (CIRCUIT_BREAKER_TIMEOUT e) = true -> circuitBreakerTimeout c = 30000)
  /\ ~ (transientFailureRate c == 0)%Q
  /\ ~ (permanentFailureRate c == 0)%Q
  /\ ~ (timeoutRate c == 0)%Q
  /\ tps c <> 0
  /\ burstSize c <> 0.
Proof.
  cbv zeta. unfold resolveConfig; simpl.
  repeat split;
    try (apply or_default_falsy);
    try (apply or_default_Z_nonzero; discriminate);
    try (apply or_default_Q_nonzero; discriminate).
Qed.

(** The same at the environment where every numeric variable is 0. *)
Lemma zero_or_unparsable_resolves_to_default_witness :
  resolveConfig env_all_zero = resolveConfig empty_env
  /\ timeoutRate (resolveConfig env_all_zero) = 1 # 10.
Proof.
  pose proof (zero_or_unparsable_resolves_to_default env_all_zero) as H.
  cbv zeta in H.
  destruct H as (H1 & H2 & H3 & H4 & H5 & H6 & H7 & H8 & H9 & H10 & _).
  split.
  - reflexivity.
  - apply H7. reflexivity.
Defined.

(** Startup never crashes. *)
Lemma startup_listens (e : env) (t0 : Z) :
  startup e t0 = Listening (resolveConfig e) (boot (resolveConfig e) t0).
Proof. reflexivity. Qed.

(** Invalid input is accepted: a negative failure rate, failure rates
    whose sum is 1.9, and a tokens-per-second value of -1 each start the
    server with that value in its configuration, and the first request is
    handled under it.  (Counterexample to C9.) *)
Lemma invalid_config_is_accepted :
  (invalid_input env_negative_rate = true
   /\ startup env_negative_rate 0 <> Crashed
   /\ transientFailureRate (resolveConfig env_negative_rate) = (- (1 # 2))%Q)
  /\ (invalid_input env_rates_over_one = true
      /\ startup env_rates_over_one 0 <> Crashed
      /\ transientFailureRate (resolveConfig env_rates_over_one) = 9 # 10
      /\ permanentFailureRate (resolveConfig env_rates_over_one) = 9 # 10)
  /\ (invalid_input env_negative_tps = true
      /\ startup env_negative_tps 0 <> Crashed
      /\ tps (resolveConfig env_negative_tps) = -1
      /\ exists w,
          exec (resolveConfig env_negative_tps) (PayBegin 1 (draws_for SUCCESS))
            (boot (resolveConfig env_negative_tps) 0) = Some (w, None)).
Proof.
  repeat split; try reflexivity; try discriminate.
  eexists. vm_compute. reflexivity.
Qed.

(** C9, as the code has it.  Startup never fails: whatever the
    environment, the server starts listening with the resolved
    configuration.  Nothing is validated: a value that parses to a
    non-zero number is taken as it is, be it a negative failure rate,
    failure rates summing to more than 1, or a negative tokens-per-second
    value; a value that parses to 0 or does not parse is replaced by the
    default. *)
Theorem startup_accepts_every_configuration (e : env) (t0 : Z) :
  let c := resolveConfig e in
  startup e t0 = Listening c (boot c t0)
  /\ (forall v, TRANSIENT_FAILURE_RATE e = Num v -> ~ (v == 0)%Q ->
        transientFailureRate c = v)
  /\ (forall v, PERMANENT_FAILURE_RATE e = Num v -> ~ (v == 0)%Q ->
        permanentFailureRate c = v)
  /\ (forall v, TIMEOUT_RATE e = Num v -> ~ (v == 0)%Q -> timeoutRate c = v)
  /\ (forall v, TPS e = Num v -> v <> 0 -> tps c = v)
  /\ (falsy (TPS e) = true -> tps c = 2).
Proof.
  cbv zeta. split; [reflexivity|].
  unfold resolveConfig; simpl.
  repeat split; try (intros v -> Hv; apply or_default_truthy).
  - unfold is_zero, Zeroish_Q. destruct (Qeq_bool v 0) eqn:E; [|reflexivity].
    apply Qeq_bool_iff in E. contradiction.
  - unfold is_zero, Zeroish_Q. destruct (Qeq_bool v 0) eqn:E; [|reflexivity].
    apply Qeq_bool_iff in E. contradiction.
  - unfold is_zero, Zeroish_Q. destruct (Qeq_bool v 0) eqn:E; [|reflexivity].
    apply Qeq_bool_iff in E. contradiction.
  - unfold is_zero, Zeroish_Z. apply Z.eqb_neq. exact Hv.
  - apply or_default_falsy.
Qed.

Lemma startup_accepts_every_configuration_witness :
  startup env_negative_rate 0
  = Listening (resolveConfig env_negative_rate)
      (boot (resolveConfig env_negative_rate) 0)
  /\ transientFailureRate (resolveConfig env_negative_rate) = (- (1 # 2))%Q
  /\ tps (resolveConfig env_negative_rate) = 2.
Proof.
  pose proof (startup_accepts_every_configuration env_negative_rate 0) as H.
  cbv zeta in H. destruct H as (H0 & H1 & _ & _ & _ & H5).
  split; [exact H0|]. split.
  - apply H1; [reflexivity | discriminate].
  - apply H5. reflexivity.
Defined.

(** ** Outcome selection *)

(** At the documented rates the code and the documented bands disagree,
    even when one value is fed to all three tests: 0.12 is a transient
    failure and 0.30 a success; and the outcome is not a function of the
    first draw.  (Counterexample to C1.) *)
Lemma outcome_is_not_one_draw_in_bands :
  let cfg := resolveConfig empty_env in
  timeoutRate cfg = 1 # 10
  /\ permanentFailureRate cfg = 5 # 100
  /\ transientFailureRate cfg = 2 # 10
  /\ spec_bands cfg (12 # 100) = PERMANENT_FAILURE
  /\ decide cfg (12 # 100) (12 # 100) (12 # 100) = TRANSIENT_FAILURE
  /\ spec_bands cfg (30 # 100) = TRANSIENT_FAILURE
  /\ decide cfg (30 # 100) (30 # 100) (30 # 100) = SUCCESS
  /\ decide cfg (12 # 100) (1 # 100) (1 # 2) = PERMANENT_FAILURE
  /\ decide cfg (12 # 100) (1 # 2) (1 # 2) = SUCCESS.
Proof. repeat split. Qed.

(** C1, as the code has it.  The outcome of an admitted request is
    selected by up to three successive draws tested in the fixed order
    timeout, permanent, transient: TIMEOUT iff the first draw is below
    the timeout rate; PERMANENT_FAILURE iff it is not and the second draw
    is below the permanent rate; TRANSIENT_FAILURE iff neither and the
    third draw is below the transient rate; SUCCESS iff no test fires.
    At rates 0.1, 0.05, 0.2: a first draw 0.05 is a timeout; 0.12 with a
    second draw 0.01 a permanent failure; 0.30, 0.5 with a third draw 0.1
    a transient failure; three draws of 0.99 a success. *)
Theorem outcome_by_successive_draws (cfg : config) (d : draws) :
  let t := timeoutRate cfg in
  let p := permanentFailureRate cfg in
  let f := transientFailureRate cfg in
  let o := decide cfg (r_to d) (r_perm d) (r_trans d) in
  (forall now s s' q, pay_begin cfg now d s = (s', inr q) -> p_outcome q = o)
  /\ (o = TIMEOUT <-> r_to d < t)%Q
  /\ (o = PERMANENT_FAILURE <-> t <= r_to d /\ r_perm d < p)%Q
  /\ (o = TRANSIENT_FAILURE <-> t <= r_to d /\ p <= r_perm d /\ r_trans d < f)%Q
  /\ (o = SUCCESS <-> t <= r_to d /\ p <= r_perm d /\ f <= r_trans d)%Q
  /\ (forall c, timeoutRate c = 1 # 10 -> permanentFailureRate c = 5 # 100 ->
        transientFailureRate c = 2 # 10 ->
        decide c (5 # 100) (r_perm d) (r_trans d) = TIMEOUT
        /\ decide c (12 # 100) (1 # 100) (r_trans d) = PERMANENT_FAILURE
        /\ decide c (30 # 100) (1 # 2) (1 # 10) = TRANSIENT_FAILURE
        /\ decide c (99 # 100) (99 # 100) (99 # 100) = SUCCESS).
Proof.
  cbv zeta. split; [|split; [|split; [|split; [|split]]]].
  - intros now s s' q. unfold pay_begin.
    destruct (checkCircuitBreaker cfg now _) as [ok s2].
    destruct (negb ok); [discriminate|].
    destruct (Qltb (tokens s2) 1); [discriminate|].
    intros E. inversion E. reflexivity.
  - unfold decide. rewrite <- Qltb_lt.
    destruct (Qltb (r_to d) (timeoutRate cfg)); [tauto|].
    destruct (Qltb (r_perm d) _); [split; discriminate|].
    destruct (Qltb (r_trans d) _); split; discriminate.
  - unfold decide. rewrite <- Qltb_lt, <- Qltb_ge.
    destruct (Qltb (r_to d) (timeoutRate cfg)); [split; [discriminate|intros [? _]; discriminate]|].
    destruct (Qltb (r_perm d) _); [tauto|].
    destruct (Qltb (r_trans d) _); split; try discriminate; intros [_ ?]; discriminate.
  - unfold decide. rewrite <- Qltb_lt, <- !Qltb_ge.
    destruct (Qltb (r_to d) (timeoutRate cfg)); [split; [discriminate|intros [? _]; discriminate]|].
    destruct (Qltb (r_perm d) _); [split; [discriminate|intros (_ & ? & _); discriminate]|].
    destruct (Qltb (r_trans d) _); [tauto|].
    split; [discriminate|intros (_ & _ & ?); discriminate].
  - unfold decide. rewrite <- !Qltb_ge.
    destruct (Qltb (r_to d) (timeoutRate cfg)); [split; [discriminate|intros [? _]; discriminate]|].
    destruct (Qltb (r_perm d) _); [split; [discriminate|intros (_ & ? & _); discriminate]|].
    destruct (Qltb (r_trans d) _); [split; [discriminate|intros (_ & _ & ?); discriminate]|].
    tauto.
  - intros c Ht Hp Hf. unfold decide. rewrite Ht, Hp, Hf. repeat split.
Qed.

Lemma outcome_by_successive_draws_witness :
  match pay_begin (resolveConfig empty_env) 0 (draws_for PERMANENT_FAILURE)
          (initialStore (resolveConfig empty_env) 0) with
  | (_, inr q) => p_outcome q = PERMANENT_FAILURE
  | (_, inl _) => False
  end
  /\ decide (resolveConfig empty_env) (5 # 100) (1 # 2) (1 # 2) = TIMEOUT.
Proof.
  pose proof (outcome_by_successive_draws (resolveConfig empty_env)
                (draws_for PERMANENT_FAILURE)) as H.
  cbv zeta in H. destruct H as (H1 & _ & _ & _ & _ & H6).
  split.
  - destruct (pay_begin _ 0 _ _) as [s' [r|q]] eqn:E.
    + vm_compute in E. discriminate E.
    + rewrite (H1 _ _ _ _ E). reflexivity.
  - destruct (H6 (resolveConfig empty_env) eq_refl eq_refl eq_refl) as (A & _).
    exact A.
Defined.

(** ** What the breaker functions leave alone *)

Lemma checkCircuitBreaker_frame (cfg : config) (now : Z) (s : store) :
  let s' := snd (checkCircuitBreaker cfg now s) in
  tokens s' = tokens s /\ lastRefill s' = lastRefill s
  /\ metrics s' = metrics s
  /\ failures (circuitBreaker s') = failures (circuitBreaker s)
  /\ lastFailure (circuitBreaker s') = lastFailure (circuitBreaker s).
Proof.
  unfold checkCircuitBreaker.
  destruct (state (circuitBreaker s)); simpl; try tauto.
  destruct (_ <? _); simpl; tauto.
Qed.

Lemma updateCircuitBreaker_frame (cfg : config) (b : bool) (now : Z) (s : store) :
  let s' := updateCircuitBreaker cfg b now s in
  tokens s' = tokens s /\ lastRefill s' = lastRefill s
  /\ totalRequests (metrics s') = totalRequests (metrics s)
  /\ successfulRequests (metrics s') = successfulRequests (metrics s)
  /\ failedRequests (metrics s') = failedRequests (metrics s)
  /\ rateLimitedRequests (metrics s') = rateLimitedRequests (metrics s)
  /\ timeoutRequests (metrics s') = timeoutRequests (metrics s)
  /\ averageLatency (metrics s') = averageLatency (metrics s)
  /\ startTime (metrics s') = startTime (metrics s).
Proof.
  unfold updateCircuitBreaker.
  destruct (negb _); [simpl; tauto|].
  destruct b.
  - destruct (state (circuitBreaker s)); simpl; tauto.
  - destruct (_ <=? _); simpl; tauto.
Qed.

Lemma updateCircuitBreaker_disabled (cfg : config) (b : bool) (now : Z) (s : store) :
  circuitBreakerEnabled cfg = false -> updateCircuitBreaker cfg b now s = s.
Proof.
  intros H. unfold updateCircuitBreaker. rewrite H. reflexivity.
Qed.

(** A failure report with the breaker enabled counts the failure and
    stamps it. *)
Lemma updateCircuitBreaker_failure (cfg : config) (now : Z) (s : store) :
  circuitBreakerEnabled cfg = true ->
  let s' := updateCircuitBreaker cfg false now s in
  failures (circuitBreaker s') = failures (circuitBreaker s) + 1
  /\ lastFailure (circuitBreaker s') = now.
Proof.
  intros H. unfold updateCircuitBreaker. rewrite H. simpl.
  destruct (_ <=? _); simpl; tauto.
Qed.

(** ** Invariants of the event loop *)

Lemma breaker_ok_check (cfg : config) (now : Z) (s : store) :
  breaker_ok cfg s -> breaker_ok cfg (snd (checkCircuitBreaker cfg now s)).
Proof.
  unfold breaker_ok, checkCircuitBreaker. intros H.
  destruct (state (circuitBreaker s)) eqn:E; simpl; try (rewrite E; exact H).
  destruct (_ <? _); simpl.
  - intros _. apply H. discriminate.
  - rewrite E. exact H.
Qed.

Lemma breaker_ok_update (cfg : config) (b : bool) (now : Z) (s : store) :
  breaker_ok cfg s -> breaker_ok cfg (updateCircuitBreaker cfg b now s).
Proof.
  unfold breaker_ok, updateCircuitBreaker. intros H.
  destruct (circuitBreakerEnabled cfg) eqn:En; simpl; [|exact H].
  destruct b.
  - destruct (state (circuitBreaker s)) eqn:E; simpl;
      try (rewrite E; exact H).
    intros C. contradiction C. reflexivity.
  - destruct (Z.leb_spec (circuitBreakerThreshold cfg)
                (failures (circuitBreaker s) + 1)); simpl.
    + intros _. split; [reflexivity | assumption].
    + intros C. destruct (H C) as [_ L]. lia.
Qed.

Lemma breaker_ok_same_breaker (cfg : config) (s s' : store) :
  circuitBreaker s' = circuitBreaker s -> breaker_ok cfg s -> breaker_ok cfg s'.
Proof.
  unfold breaker_ok. intros ->. tauto.
Qed.

Lemma breaker_ok_pay_begin (cfg : config) (now : Z) (d : draws) (s : store) :
  breaker_ok cfg s -> breaker_ok cfg (fst (pay_begin cfg now d s)).
Proof.
  intros H. unfold pay_begin.
  pose proof (breaker_ok_check cfg now
                (set_metrics (incr_totalRequests (metrics s)) s)) as K.
  destruct (checkCircuitBreaker cfg now _) as [ok s2]. simpl in K.
  assert (B : breaker_ok cfg s2)
    by (apply K; eapply breaker_ok_same_breaker; [|exact H]; reflexivity).
  destruct (negb ok); simpl.
  - eapply breaker_ok_same_breaker; [|exact B]. reflexivity.
  - destruct (Qltb (tokens s2) 1); simpl;
      (eapply breaker_ok_same_breaker; [|exact B]); reflexivity.
Qed.

Lemma breaker_ok_pay_finish (cfg : config) (now : Z) (p : pending) (s : store) :
  breaker_ok cfg s -> breaker_ok cfg (fst (pay_finish cfg now p s)).
Proof.
  intros H. unfold pay_finish.
  destruct (p_outcome p); simpl; apply breaker_ok_update;
    (eapply breaker_ok_same_breaker; [|exact H]); reflexivity.
Qed.

Lemma exec_breaker_ok (cfg : config) (e : event) (w w' : world) r :
  exec cfg e w = Some (w', r) ->
  breaker_ok cfg (globals w) -> breaker_ok cfg (globals w').
Proof.
  unfold exec. destruct (_ <? _); [discriminate|].
  destruct e as [now|now d|k now|now]; intros E H.
  - inversion E; subst; simpl.
    eapply breaker_ok_same_breaker; [|exact H]. reflexivity.
  - pose proof (breaker_ok_pay_begin cfg now d (globals w) H) as K.
    destruct (pay_begin cfg now d (globals w)) as [s' [x|q]];
      inversion E; subst; exact K.
  - destruct (nth_error (inflight w) k) as [p|]; [|discriminate].
    destruct (Qle_bool _ _); [|discriminate].
    pose proof (breaker_ok_pay_finish cfg now p (globals w) H) as K.
    destruct (pay_finish cfg now p (globals w)) as [s' x].
    inversion E; subst; exact K.
  - inversion E; subst; simpl. intros C. contradiction C. reflexivity.
Qed.

Lemma reachable_breaker_ok (cfg : config) (w : world) :
  reachable cfg w -> breaker_ok cfg (globals w).
Proof.
  induction 1 as [t0 | w e w' r _ IH E].
  - intros C. contradiction C. reflexivity.
  - eapply exec_breaker_ok; eassumption.
Qed.

(** A run that succeeds ends in a reachable world. *)
Lemma run_reachable (cfg : config) (es : list event) :
  forall w w' rs, reachable cfg w -> run cfg es w = Some (w', rs) ->
                  reachable cfg w'.
Proof.
  induction es as [|e es IH]; simpl; intros w w' rs R E.
  - inversion E; subst; exact R.
  - destruct (exec cfg e w) as [[w1 r]|] eqn:X; [|discriminate].
    destruct (run cfg es w1) as [[w2 rs2]|] eqn:Y; [|discriminate].
    inversion E; subst. eapply IH; [|exact Y].
    eapply reach_step; eassumption.
Qed.

(** ** The timeout path *)

(** A request that times out under the default configuration is answered
    408 and counted in [timeoutRequests]; [failedRequests] stays 0.
    (Counterexample to C2.) *)
Lemma timeout_not_counted_as_failed :
  let cfg := resolveConfig empty_env in
  match run cfg one_timeout (boot cfg 0) with
  | Some (w, rs) =>
      rs = [Res408]
      /\ timeoutRequests (metrics (globals w)) = 1
      /\ failedRequests (metrics (globals w)) = 0
      /\ failedRequests (metrics (globals w))
         <> failedRequests (metrics (globals (boot cfg 0))) + 1
  | None => False
  end.
Proof. vm_compute. repeat split; discriminate. Qed.

(** C2, as the code has it.  A request whose outcome is TIMEOUT is
    answered with the timeout error, reports a failure to the circuit
    breaker, and increases [timeoutRequests] by exactly 1;
    [failedRequests] is left as it was. *)
Theorem timeout_recorded_in_timeout_counter
    (cfg : config) (now : Z) (p : pending) (s : store) :
  p_outcome p = TIMEOUT ->
  let s' := fst (pay_finish cfg now p s) in
  snd (pay_finish cfg now p s) = Res408
  /\ circuitBreaker s' = circuitBreaker (updateCircuitBreaker cfg false now s)
  /\ (circuitBreakerEnabled cfg = true ->
      failures (circuitBreaker s') = failures (circuitBreaker s) + 1
      /\ lastFailure (circuitBreaker s') = now)
  /\ timeoutRequests (metrics s') = timeoutRequests (metrics s) + 1
  /\ failedRequests (metrics s') = failedRequests (metrics s).
Proof.
  intros Ho. unfold pay_finish. rewrite Ho. simpl.
  set (s1 := set_metrics (incr_timeoutRequests (metrics s)) s).
  pose proof (updateCircuitBreaker_frame cfg false now s1) as F.
  cbv zeta in F. destruct F as (_ & _ & _ & _ & Ff & _ & Ft & _).
  split; [reflexivity|]. split; [|split; [|split]].
  - unfold updateCircuitBreaker, s1.
    destruct (negb _); [reflexivity|]. simpl.
    destruct (_ <=? _); reflexivity.
  - intros En. apply (updateCircuitBreaker_failure cfg now s1 En).
  - rewrite Ft. reflexivity.
  - rewrite Ff. reflexivity.
Qed.

Lemma timeout_recorded_in_timeout_counter_witness :
  let cfg := resolveConfig (env_breaker 5) in
  let p := {| p_outcome := TIMEOUT; p_start := 0; p_delay := 10000 |} in
  let s' := fst (pay_finish cfg 10000 p (initialStore cfg 0)) in
  timeoutRequests (metrics s') = 1 /\ failedRequests (metrics s') = 0
  /\ failures (circuitBreaker s') = 1.
Proof.
  cbv zeta.
  pose proof (timeout_recorded_in_timeout_counter (resolveConfig (env_breaker 5))
                10000 {| p_outcome := TIMEOUT; p_start := 0; p_delay := 10000 |}
                (initialStore (resolveConfig (env_breaker 5)) 0) eq_refl) as H.
  cbv zeta in H. destruct H as (_ & _ & Hb & Ht & Hf).
  split; [exact Ht|]. split; [exact Hf|].
  destruct (Hb eq_refl) as [A _]. exact A.
Defined.

(** ** The breaker in HALF_OPEN *)

(** With threshold 1, one failure opens the breaker; after the open
    window the next request moves it to HALF_OPEN and is admitted, and
    so are the two requests that follow before any outcome is reported.
    (Counterexample to C3.) *)
Lemma half_open_admits_several :
  let cfg := resolveConfig (env_breaker 1) in
  match run cfg (firstn 3 probes_after_window) (boot cfg 0) with
  | Some (w1, rs1) =>
      rs1 = [Res500]
      /\ phase_of w1 = HALF_OPEN
      /\ List.length (inflight w1) = 1%nat
      /\ fst (checkCircuitBreaker cfg 31001 (globals w1)) = true
      /\ match run cfg (skipn 3 probes_after_window) w1 with
         | Some (w2, rs2) =>
             rs2 = [] /\ phase_of w2 = HALF_OPEN
             /\ List.length (inflight w2) = 3%nat
         | None => False
         end
  | None => False
  end.
Proof. vm_compute. repeat split. Qed.

(** C3, as the code has it.  While the breaker is HALF_OPEN the gate
    admits every request: each check returns true and leaves the store
    as it is, so no request is answered "breaker open"; the phase leaves
    HALF_OPEN only when an outcome is reported, to CLOSED with failure
    count 0 on a success and to OPEN on a failure. *)
Theorem half_open_admits_until_report (cfg : config) (w : world) :
  reachable cfg w -> phase_of w = HALF_OPEN ->
  (forall now, checkCircuitBreaker cfg now (globals w) = (true, globals w))
  /\ (forall now d, snd (pay_begin cfg now d (globals w)) <> inl Res503_breaker)
  /\ (forall now d, phase_of {| clock := now;
                                globals := fst (pay_begin cfg now d (globals w));
                                inflight := inflight w |} = HALF_OPEN)
  /\ (forall now,
        let s' := updateCircuitBreaker cfg true now (globals w) in
        state (circuitBreaker s') = CLOSED /\ failures (circuitBreaker s') = 0)
  /\ (forall now,
        state (circuitBreaker (updateCircuitBreaker cfg false now (globals w)))
        = OPEN).
Proof.
  intros R Hp. unfold phase_of in Hp.
  destruct (reachable_breaker_ok cfg w R) as [En Th];
    [rewrite Hp; discriminate|].
  assert (G : forall now s, state (circuitBreaker s) = HALF_OPEN ->
                            checkCircuitBreaker cfg now s = (true, s))
    by (intros now s E; unfold checkCircuitBreaker; rewrite E; reflexivity).
  assert (B : forall now d,
             exists s2, state (circuitBreaker s2) = HALF_OPEN
               /\ (pay_begin cfg now d (globals w)
                   = (set_metrics (incr_rateLimitedRequests (metrics s2)) s2,
                      inl Res429)
                   \/ exists q, pay_begin cfg now d (globals w)
                                = (set_tokens (tokens s2 - 1)%Q s2, inr q))).
  { intros now d. unfold pay_begin.
    rewrite (G now (set_metrics (incr_totalRequests (metrics (globals w)))
                      (globals w)) Hp).
    simpl.
    exists (set_metrics (incr_totalRequests (metrics (globals w))) (globals w)).
    split; [exact Hp|].
    destruct (Qltb _ 1); [left; reflexivity|right; eexists; reflexivity]. }
  split; [|split; [|split; [|split]]].
  - intros now. apply G. exact Hp.
  - intros now d. destruct (B now d) as (s2 & _ & [E | [q E]]);
      rewrite E; simpl; discriminate.
  - intros now d. unfold phase_of. simpl.
    destruct (B now d) as (s2 & E2 & [E | [q E]]); rewrite E; exact E2.
  - intros now. cbv zeta. unfold updateCircuitBreaker.
    rewrite En, Hp. simpl. split; reflexivity.
  - intros now. unfold updateCircuitBreaker. rewrite En. simpl.
    destruct (Z.leb_spec (circuitBreakerThreshold cfg)
                (failures (circuitBreaker (globals w)) + 1)); [reflexivity|lia].
Qed.

Lemma half_open_admits_until_report_witness :
  let cfg := resolveConfig (env_breaker 1) in
  match run cfg probes_after_window (boot cfg 0) with
  | Some (w, _) =>
      phase_of w = HALF_OPEN
      /\ checkCircuitBreaker cfg 40000 (globals w) = (true, globals w)
      /\ state (circuitBreaker (updateCircuitBreaker cfg false 40000 (globals w)))
         = OPEN
  | None => False
  end.
Proof.
  cbv zeta.
  destruct (run (resolveConfig (env_breaker 1)) probes_after_window
              (boot (resolveConfig (env_breaker 1)) 0)) as [[w rs]|] eqn:E.
  - assert (R : reachable (resolveConfig (env_breaker 1)) w)
      by (eapply run_reachable; [apply reach_boot | exact E]).
    assert (P : phase_of w = HALF_OPEN)
      by (vm_compute in E; inversion E; reflexivity).
    destruct (half_open_admits_until_report _ w R P) as (A & _ & _ & _ & D).
    split; [exact P|]. split; [apply A | apply D].
  - vm_compute in E. discriminate E.
Defined.

(** ** The trip counter *)

(** What a report does to the trip counter: it goes up by one exactly
    when the report is a failure, the breaker is enabled and the new
    failure count has reached the threshold, whatever the phase was. *)
Lemma updateCircuitBreaker_trips (cfg : config) (b : bool) (now : Z) (s : store) :
  circuitBreakerTrips (metrics (updateCircuitBreaker cfg b now s))
  = circuitBreakerTrips (metrics s)
    + (if circuitBreakerEnabled cfg && negb b
          && (circuitBreakerThreshold cfg <=? failures (circuitBreaker s) + 1)
       then 1 else 0).
Proof.
  unfold updateCircuitBreaker.
  destruct (circuitBreakerEnabled cfg); simpl; [|lia].
  destruct b; simpl.
  - destruct (state (circuitBreaker s)); simpl; lia.
  - destruct (_ <=? _); simpl; lia.
Qed.

(** A report made while the phase is not OPEN raises the trip counter by
    one exactly when it moves the phase to OPEN. *)
Lemma trips_follow_entry_into_open (cfg : config) (b : bool) (now : Z) (s : store) :
  state (circuitBreaker s) <> OPEN ->
  let s' := updateCircuitBreaker cfg b now s in
  circuitBreakerTrips (metrics s')
  = circuitBreakerTrips (metrics s)
    + (if phase_eqb (state (circuitBreaker s')) OPEN then 1 else 0).
Proof.
  intros H. cbv zeta. unfold updateCircuitBreaker.
  destruct (circuitBreakerEnabled cfg); simpl.
  - destruct b; simpl.
    + destruct (state (circuitBreaker s)) eqn:E; simpl;
        try rewrite E; simpl; try lia. contradiction H. reflexivity.
    + destruct (_ <=? _); simpl; [lia|].
      destruct (state (circuitBreaker s)); simpl; try lia.
      contradiction H. reflexivity.
  - destruct (state (circuitBreaker s)); simpl; try lia.
    contradiction H. reflexivity.
Qed.

(** C4 at a failing run.  Breaker enabled with threshold 2; three
    requests are admitted together and each fails.  The second failure
    opens the breaker (one trip); the third is reported while the phase is
    already OPEN, leaves it OPEN, and still raises the trip counter to 2,
    although the run enters OPEN once. *)
Theorem trip_counter_counts_report_while_open :
  let cfg := resolveConfig (env_breaker 2) in
  match run cfg (firstn 5 overlapping_failures) (boot cfg 0) with
  | Some (w1, _) =>
      phase_of w1 = OPEN /\ trips_of w1 = 1
      /\ match exec cfg (PayFinish 0 500) w1 with
         | Some (w2, r) =>
             r = Some Res500 /\ phase_of w2 = OPEN /\ trips_of w2 = 2
         | None => False
         end
  | None => False
  end
  /\ match run cfg overlapping_failures (boot cfg 0) with
     | Some (w, rs) => rs = [Res500; Res500; Res500] /\ trips_of w = 2
     | None => False
     end
  /\ open_transitions (trace cfg overlapping_failures (boot cfg 0)) = 1.
Proof. vm_compute. repeat split. Qed.

(** ** Breaker disabled *)

(** C5.  With [circuitBreakerEnabled] false, in every reachable state
    the phase is CLOSED, every gate check returns true (so no request is
    answered "breaker open"), a reported outcome changes nothing in the
    store, and the failure counters still move: a permanent or transient
    failure adds one to [failedRequests], a timeout one to
    [timeoutRequests]. *)
Theorem disabled_breaker_is_transparent (cfg : config) (w : world) :
  circuitBreakerEnabled cfg = false -> reachable cfg w ->
  phase_of w = CLOSED
  /\ (forall now, checkCircuitBreaker cfg now (globals w) = (true, globals w))
  /\ (forall now d, snd (pay_begin cfg now d (globals w)) <> inl Res503_breaker)
  /\ (forall success now s, updateCircuitBreaker cfg success now s = s)
  /\ (forall now p,
        circuitBreaker (fst (pay_finish cfg now p (globals w)))
        = circuitBreaker (globals w))
  /\ (forall now p,
        p_outcome p = PERMANENT_FAILURE \/ p_outcome p = TRANSIENT_FAILURE ->
        failedRequests (metrics (fst (pay_finish cfg now p (globals w))))
        = failedRequests (metrics (globals w)) + 1)
  /\ (forall now p,
        p_outcome p = TIMEOUT ->
        timeoutRequests (metrics (fst (pay_finish cfg now p (globals w))))
        = timeoutRequests (metrics (globals w)) + 1).
Proof.
  intros Dis R.
  assert (C : state (circuitBreaker (globals w)) = CLOSED).
  { pose proof (reachable_breaker_ok cfg w R) as K. unfold breaker_ok in K.
    destruct (state (circuitBreaker (globals w))); [reflexivity| |];
      (destruct K as [En _]; [discriminate|congruence]). }
  split; [exact C|].
  split; [|split; [|split; [|split; [|split]]]].
  - intros now. unfold checkCircuitBreaker. rewrite C. reflexivity.
  - intros now d. unfold pay_begin, checkCircuitBreaker. simpl. rewrite C.
    simpl. destruct (Qltb _ 1); simpl; discriminate.
  - intros success now s. apply updateCircuitBreaker_disabled. exact Dis.
  - intros now p. unfold pay_finish.
    destruct (p_outcome p); simpl;
      rewrite (updateCircuitBreaker_disabled cfg _ now _ Dis); reflexivity.
  - intros now p [E | E]; unfold pay_finish; rewrite E; simpl;
      rewrite (updateCircuitBreaker_disabled cfg _ now _ Dis); reflexivity.
  - intros now p E. unfold pay_finish. rewrite E. simpl.
    rewrite (updateCircuitBreaker_disabled cfg _ now _ Dis). reflexivity.
Qed.

Lemma disabled_breaker_is_transparent_witness :
  let cfg := resolveConfig empty_env in
  match run cfg one_timeout (boot cfg 0) with
  | Some (w, _) =>
      phase_of w = CLOSED
      /\ checkCircuitBreaker cfg 20000 (globals w) = (true, globals w)
  | None => False
  end.
Proof.
  cbv zeta.
  destruct (run (resolveConfig empty_env) one_timeout
              (boot (resolveConfig empty_env) 0)) as [[w rs]|] eqn:E.
  - assert (R : reachable (resolveConfig empty_env) w)
      by (eapply run_reachable; [apply reach_boot | exact E]).
    destruct (disabled_breaker_is_transparent (resolveConfig empty_env) w
                eq_refl R) as (A & B & _).
    split; [exact A | apply B].
  - vm_compute in E. discriminate E.
Defined.

(** ** The reset handler *)

(** C7.  From any state, [POST /reset] is one step of the event loop
    that sets the six counters and the average to 0, the breaker to
    CLOSED with failure count 0 and the token count to [burstSize], the
    values they have at startup; the step has no intermediate world, so
    every other handler runs either before it or after it. *)
Theorem reset_restores_initial_values (cfg : config) (w : world) (now : Z) :
  clock w <= now ->
  exists w',
    exec cfg (PostReset now) w = Some (w', Some ResReset)
    /\ trace cfg [PostReset now] w = [w; w']
    /\ totalRequests (metrics (globals w')) = 0
    /\ successfulRequests (metrics (globals w')) = 0
    /\ failedRequests (metrics (globals w')) = 0
    /\ rateLimitedRequests (metrics (globals w')) = 0
    /\ timeoutRequests (metrics (globals w')) = 0
    /\ circuitBreakerTrips (metrics (globals w')) = 0
    /\ averageLatency (metrics (globals w')) = 0%Q
    /\ state (circuitBreaker (globals w')) = CLOSED
    /\ failures (circuitBreaker (globals w')) = 0
    /\ tokens (globals w') = inject_Z (burstSize cfg)
    /\ metrics (globals w') = metrics (initialStore cfg now)
    /\ circuitBreaker (globals w') = circuitBreaker (initialStore cfg now)
    /\ tokens (globals w') = tokens (initialStore cfg now).
Proof.
  intros H.
  assert (E : exec cfg (PostReset now) w
              = Some ({| clock := now; globals := reset cfg now (globals w);
                         inflight := inflight w |}, Some ResReset)).
  { unfold exec. simpl. destruct (Z.ltb_spec now (clock w)); [lia|reflexivity]. }
  eexists. split; [exact E|].
  split; [simpl; rewrite E; reflexivity|].
  simpl. repeat split.
Qed.

Lemma reset_restores_initial_values_witness :
  let cfg := resolveConfig (env_breaker 2) in
  match run cfg overlapping_failures (boot cfg 0) with
  | Some (w, _) =>
      trips_of w = 2
      /\ exists w', exec cfg (PostReset 600) w = Some (w', Some ResReset)
                    /\ trips_of w' = 0 /\ phase_of w' = CLOSED
                    /\ tokens (globals w') = 5%Q
  | None => False
  end.
Proof.
  cbv zeta.
  destruct (run (resolveConfig (env_breaker 2)) overlapping_failures
              (boot (resolveConfig (env_breaker 2)) 0)) as [[w rs]|] eqn:E.
  - vm_compute in E. inversion E; subst. split; [reflexivity|].
    match goal with
    | |- exists w', exec ?c _ ?w0 = _ /\ _ =>
        destruct (reset_restores_initial_values c w0 600 ltac:(simpl; lia))
          as (w' & X & _ & _ & _ & _ & _ & _ & T & _ & P & _ & K & _)
    end.
    exists w'. split; [exact X|]. split; [exact T|]. split; [exact P|exact K].
  - vm_compute in E. discriminate E.
Defined.

(** ** The token bucket *)








(** The bound on [tps] is needed: the configuration accepts [TPS=-1],
    and the refill then takes tokens away. *)
Example negative_tps_drains_bucket :
  let cfg := resolveConfig env_negative_tps in
  match run cfg [Tick 10000] (boot cfg 0) with
  | Some (w, _) => Qeq_bool (tokens (globals w)) (- (5)) = true
  | None => False
  end.
Proof. vm_compute. reflexivity. Qed.


(** ** The running average *)

Lemma sumZ_cons (l : Z) (ls : list Z) : sumZ (l :: ls) = l + sumZ ls.
Proof. reflexivity. Qed.

Lemma sumZ_Permutation (ls ls' : list Z) :
  Permutation ls ls' -> sumZ ls = sumZ ls'.
Proof.
  induction 1; simpl; try lia.
Qed.

(** One update keeps "average times count = sum of the samples". *)
Lemma recordSuccess_total (l : Z) (m : Metrics) :
  0 <= successfulRequests m ->
  (averageLatency (recordSuccess l m)
   * inject_Z (successfulRequests (recordSuccess l m))
   == averageLatency m * inject_Z (successfulRequests m) + inject_Z l)%Q.
Proof.
  intros H. simpl. rewrite inject_Z_plus.
  change (inject_Z 1) with 1%Q.
  assert (N : (0 <= inject_Z (successfulRequests m))%Q)
    by (change 0%Q with (inject_Z 0); rewrite <- Zle_Qle; exact H).
  field. lra.
Qed.


Lemma sumZ_bounds (lo hi : Z) (ls : list Z) :
  Forall (fun l => lo <= l <= hi) ls ->
  Z.of_nat (List.length ls) * lo <= sumZ ls
  /\ sumZ ls <= Z.of_nat (List.length ls) * hi.
Proof.
  induction 1 as [|l ls Hl _ IH].
  - unfold sumZ; simpl. lia.
  - rewrite sumZ_cons. simpl List.length. rewrite Nat2Z.inj_succ. lia.
Qed.

(** A number whose product with a positive count is a sum of values
    between [lo] and [hi] lies between [lo] and [hi]. *)
Lemma weighted_mean_bounds (a : Q) (n total lo hi : Z) :
  0 < n -> (a * inject_Z n == inject_Z total)%Q ->
  n * lo <= total -> total <= n * hi ->
  (inject_Z lo <= a)%Q /\ (a <= inject_Z hi)%Q.
Proof.
  intros Hn E L U.
  assert (P : (0 < inject_Z n)%Q)
    by (change 0%Q with (inject_Z 0); rewrite <- Zlt_Qlt; exact Hn).
  rewrite Zle_Qle, inject_Z_mult in L, U. rewrite <- E in L, U.
  split.
  - apply (Qmult_le_r _ _ (inject_Z n) P).
    rewrite (Qmult_comm (inject_Z lo)). exact L.
  - apply (Qmult_le_r _ _ (inject_Z n) P).
    rewrite (Qmult_comm (inject_Z hi)). exact U.
Qed.




(** * Further properties of the provider *)

(** ** The three ways a request leaves the first half of the handler *)

Lemma checkCircuitBreaker_set_metrics (cfg : config) (now : Z) (m : Metrics)
    (s : store) :
  checkCircuitBreaker cfg now (set_metrics m s)
  = (fst (checkCircuitBreaker cfg now s),
     set_metrics m (snd (checkCircuitBreaker cfg now s))).
Proof.
  unfold checkCircuitBreaker. simpl.
  destruct (state (circuitBreaker s)); try reflexivity.
  destruct (_ <? _); reflexivity.
Qed.

Lemma checkCircuitBreaker_rejects (cfg : config) (now : Z) (s : store) :
  fst (checkCircuitBreaker cfg now s) = false ->
  state (circuitBreaker s) = OPEN
  /\ now - lastFailure (circuitBreaker s) <= circuitBreakerTimeout cfg
  /\ snd (checkCircuitBreaker cfg now s) = s.
Proof.
  unfold checkCircuitBreaker.
  destruct (state (circuitBreaker s)); simpl; try discriminate.
  destruct (Z.ltb_spec (circuitBreakerTimeout cfg)
              (now - lastFailure (circuitBreaker s))); simpl;
    [discriminate|]. intros _. repeat split. lia.
Qed.

Lemma pay_begin_cases (cfg : config) (now : Z) (d : draws) (s : store) :
  let m1 := incr_totalRequests (metrics s) in
  let s2 := snd (checkCircuitBreaker cfg now s) in
  (fst (checkCircuitBreaker cfg now s) = false
   /\ pay_begin cfg now d s
      = (set_metrics (incr_failedRequests m1) s, inl Res503_breaker))
  \/ (fst (checkCircuitBreaker cfg now s) = true /\ (tokens s < 1)%Q
      /\ pay_begin cfg now d s
         = (set_metrics (incr_rateLimitedRequests m1) s2, inl Res429))
  \/ (fst (checkCircuitBreaker cfg now s) = true /\ (1 <= tokens s)%Q
      /\ exists p,
          pay_begin cfg now d s
          = (set_tokens (tokens s - 1)%Q (set_metrics m1 s2), inr p)
          /\ p_start p = now
          /\ p_outcome p = decide cfg (r_to d) (r_perm d) (r_trans d)
          /\ p_delay p
             = match p_outcome p with
               | TIMEOUT => inject_Z (timeoutDuration cfg)
               | _ => latencyOf cfg (r_lat d)
               end).
Proof.
  cbv zeta. unfold pay_begin.
  rewrite checkCircuitBreaker_set_metrics.
  pose proof (checkCircuitBreaker_frame cfg now s) as F. cbv zeta in F.
  destruct F as (Ft & _).
  destruct (fst (checkCircuitBreaker cfg now s)) eqn:G; simpl.
  - right.
    destruct (Qltb (tokens (snd (checkCircuitBreaker cfg now s))) 1) eqn:Q.
    + left. apply Qltb_lt in Q. rewrite Ft in Q. repeat split; assumption.
    + right. apply Qltb_ge in Q. rewrite Ft in Q.
      split; [reflexivity|]. split; [exact Q|].
      eexists. split; [rewrite Ft; reflexivity|]. simpl.
      repeat split.
  - left. split; [reflexivity|].
    destruct (checkCircuitBreaker_rejects cfg now s G) as (_ & _ & E).
    rewrite E. reflexivity.
Qed.

(** What the second half of the handler does to each counter. *)
Lemma pay_finish_counters (cfg : config) (now : Z) (p : pending) (s : store) :
  let m := metrics s in
  let m' := metrics (fst (pay_finish cfg now p s)) in
  totalRequests m' = totalRequests m
  /\ rateLimitedRequests m' = rateLimitedRequests m
  /\ successfulRequests m'
     = successfulRequests m + (match p_outcome p with SUCCESS => 1 | _ => 0 end)
  /\ failedRequests m'
     = failedRequests m
       + (match p_outcome p with
          | PERMANENT_FAILURE | TRANSIENT_FAILURE => 1
          | _ => 0
          end)
  /\ timeoutRequests m'
     = timeoutRequests m + (match p_outcome p with TIMEOUT => 1 | _ => 0 end)
  /\ circuitBreakerTrips m <= circuitBreakerTrips m'.
Proof.
  cbv zeta. unfold pay_finish.
  destruct (p_outcome p); simpl;
    match goal with
    | |- context [updateCircuitBreaker cfg ?b now ?x] =>
        destruct (updateCircuitBreaker_frame cfg b now x)
          as (_ & _ & T & S & F & R & O & _);
        pose proof (updateCircuitBreaker_trips cfg b now x) as Tr;
        rewrite T, S, F, R, O, Tr; simpl;
        repeat split; try lia;
        destruct (_ && _); lia
    end.
Qed.

Lemma length_remove_nth {A} (l : list A) :
  forall k x, nth_error l k = Some x ->
              List.length l = S (List.length (remove_nth k l)).
Proof.
  induction l as [|h t IH]; intros [|k] x E; simpl in *; try discriminate.
  - reflexivity.
  - f_equal. eapply IH. exact E.
Qed.

(** ** Every request is counted once *)

(** What one step does to the balance between requests received,
    requests answered and requests in flight. *)
Lemma exec_accounting (cfg : config) (e : event) (w w' : world) r :
  exec cfg e w = Some (w', r) -> is_reset e = false ->
  totalRequests (metrics (globals w'))
  - completed (metrics (globals w')) - Z.of_nat (List.length (inflight w'))
  = totalRequests (metrics (globals w))
    - completed (metrics (globals w)) - Z.of_nat (List.length (inflight w))
  /\ completed (metrics (globals w'))
     = completed (metrics (globals w))
       + (match e, r with
          | PayBegin _ _, Some _ => 1
          | PayFinish _ _, Some _ => 1
          | _, _ => 0
          end).
Proof.
  unfold exec. destruct (_ <? _); [discriminate|].
  destruct e as [now|now d|k now|now]; intros E NR; try discriminate NR.
  - inversion E; subst; simpl. split; lia.
  - destruct (pay_begin_cases cfg now d (globals w))
      as [(_ & P) | [(_ & _ & P) | (_ & _ & p & P & _)]];
      rewrite P in E; inversion E; subst; unfold completed; simpl.
    + split; lia.
    + split; lia.
    + rewrite length_app. simpl. split; lia.
  - destruct (nth_error (inflight w) k) as [p|] eqn:N; [|discriminate].
    destruct (Qle_bool _ _); [|discriminate].
    pose proof (pay_finish_counters cfg now p (globals w)) as C.
    cbv zeta in C. destruct C as (T & R & S & F & O & _).
    destruct (pay_finish cfg now p (globals w)) as [s' x].
    inversion E; subst; simpl in *. unfold completed.
    rewrite (length_remove_nth _ _ _ N), T, R, S, F, O.
    destruct (p_outcome p); split; lia.
Qed.

Lemma run_accounting (cfg : config) (es : list event) :
  forall w w' rs,
    run cfg es w = Some (w', rs) -> reset_free es = true ->
    totalRequests (metrics (globals w'))
    - completed (metrics (globals w')) - Z.of_nat (List.length (inflight w'))
    = totalRequests (metrics (globals w))
      - completed (metrics (globals w)) - Z.of_nat (List.length (inflight w))
    /\ completed (metrics (globals w'))
       = completed (metrics (globals w)) + Z.of_nat (List.length rs).
Proof.
  induction es as [|e es IH]; simpl; intros w w' rs E NR.
  - inversion E; subst. simpl. split; lia.
  - apply andb_true_iff in NR. destruct NR as [NR1 NR2].
    apply negb_true_iff in NR1.
    destruct (exec cfg e w) as [[w1 r]|] eqn:X; [|discriminate].
    destruct (run cfg es w1) as [[w2 rs2]|] eqn:Y; [|discriminate].
    inversion E; subst.
    destruct (exec_accounting cfg e w w1 r X NR1) as [A1 A2].
    destruct (IH w1 w' rs2 Y NR2) as [B1 B2].
    split; [lia|]. rewrite B2, A2.
    assert (K : (match e, r with
                 | PayBegin _ _, Some _ => 1
                 | PayFinish _ _, Some _ => 1
                 | _, _ => 0
                 end)
                = Z.of_nat (List.length
                              (match r with Some x => x :: rs2 | None => rs2 end))
                  - Z.of_nat (List.length rs2)).
    { unfold exec in X. destruct (_ <? _); [discriminate|].
      destruct e as [now|now d|k now|now]; try discriminate NR1.
      - inversion X; subst. lia.
      - destruct r; simpl List.length; lia.
      - destruct (nth_error (inflight w) k); [|discriminate].
        destruct (Qle_bool _ _); [|discriminate].
        destruct (pay_finish cfg now p (globals w)).
        inversion X; subst. simpl List.length. lia. }
    lia.
Qed.

(** X1.  Along a run without reset, from startup: the requests received
    are exactly the requests answered plus the requests still in flight,
    and the four outcome counters add up to the number of responses
    sent, so each request is counted in one outcome counter, once. *)
Theorem every_request_counted_once (cfg : config) (t0 : Z) (es : list event)
    (w : world) (rs : list response) :
  run cfg es (boot cfg t0) = Some (w, rs) -> reset_free es = true ->
  totalRequests (metrics (globals w))
  = completed (metrics (globals w)) + Z.of_nat (List.length (inflight w))
  /\ completed (metrics (globals w)) = Z.of_nat (List.length rs).
Proof.
  intros E NR. destruct (run_accounting cfg es _ _ _ E NR) as [A B].
  unfold completed in *. simpl in A, B. split; lia.
Qed.

Lemma every_request_counted_once_witness :
  let cfg := resolveConfig (env_breaker 2) in
  match run cfg open_then_recover (boot cfg 0) with
  | Some (w, rs) =>
      totalRequests (metrics (globals w)) = 4
      /\ completed (metrics (globals w)) = 4
      /\ List.length (inflight w) = 0%nat
  | None => False
  end.
Proof.
  cbv zeta.
  destruct (run (resolveConfig (env_breaker 2)) open_then_recover
              (boot (resolveConfig (env_breaker 2)) 0)) as [[w rs]|] eqn:E.
  - destruct (every_request_counted_once _ _ _ _ _ E eq_refl) as [A B].
    assert (L : List.length rs = 4%nat /\ List.length (inflight w) = 0%nat)
      by (vm_compute in E; inversion E; split; reflexivity).
    destruct L as [L1 L2]. rewrite L1 in B. rewrite L2 in A.
    split; [|split]; [lia | exact B | exact L2].
  - vm_compute in E. discriminate E.
Defined.

(** ** Counters only grow *)

Lemma counters_le_refl (m : Metrics) : counters_le m m.
Proof. unfold counters_le. repeat split; lia. Qed.

Lemma counters_le_trans (a b c : Metrics) :
  counters_le a b -> counters_le b c -> counters_le a c.
Proof. unfold counters_le. intros H K. repeat split; lia. Qed.

Lemma exec_counters_le (cfg : config) (e : event) (w w' : world) r :
  exec cfg e w = Some (w', r) -> is_reset e = false ->
  counters_le (metrics (globals w)) (metrics (globals w')).
Proof.
  unfold exec. destruct (_ <? _); [discriminate|].
  destruct e as [now|now d|k now|now]; intros E NR; try discriminate NR.
  - inversion E; subst; simpl. apply counters_le_refl.
  - destruct (pay_begin_cases cfg now d (globals w))
      as [(_ & P) | [(_ & _ & P) | (_ & _ & p & P & _)]];
      rewrite P in E; inversion E; subst; unfold counters_le; simpl;
      repeat split; lia.
  - destruct (nth_error (inflight w) k) as [p|]; [|discriminate].
    destruct (Qle_bool _ _); [|discriminate].
    pose proof (pay_finish_counters cfg now p (globals w)) as C.
    cbv zeta in C. destruct C as (T & R & S & F & O & Tr).
    destruct (pay_finish cfg now p (globals w)) as [s' x].
    inversion E; subst; simpl in *. unfold counters_le.
    rewrite T, R, S, F, O. destruct (p_outcome p); repeat split; lia.
Qed.

(** X2.  In every reachable state the six counters are non-negative, and
    a step other than a reset never decreases any of them. *)
Theorem counters_nonnegative_and_monotone (cfg : config) (w : world) :
  reachable cfg w ->
  counters_nonneg (metrics (globals w))
  /\ (forall e w' r,
        exec cfg e w = Some (w', r) -> is_reset e = false ->
        counters_le (metrics (globals w)) (metrics (globals w'))).
Proof.
  intros R. split.
  - induction R as [t0 | w e w' r _ IH E].
    + unfold counters_nonneg, counters_le. simpl. repeat split; lia.
    + destruct (is_reset e) eqn:NR.
      * destruct e; try discriminate NR. unfold exec in E.
        destruct (_ <? _); [discriminate|]. inversion E; subst.
        unfold counters_nonneg, counters_le. simpl. repeat split; lia.
      * eapply counters_le_trans; [exact IH|].
        eapply exec_counters_le; eassumption.
  - intros e w' r E NR. eapply exec_counters_le; eassumption.
Qed.

Lemma counters_nonnegative_and_monotone_witness :
  let cfg := resolveConfig (env_breaker 2) in
  match run cfg reset_with_requests_in_flight (boot cfg 0) with
  | Some (w, _) => 0 <= failedRequests (metrics (globals w))
  | None => False
  end.
Proof.
  cbv zeta.
  destruct (run (resolveConfig (env_breaker 2)) reset_with_requests_in_flight
              (boot (resolveConfig (env_breaker 2)) 0)) as [[w rs]|] eqn:E.
  - assert (R : reachable (resolveConfig (env_breaker 2)) w)
      by (eapply run_reachable; [apply reach_boot | exact E]).
    destruct (counters_nonnegative_and_monotone _ w R) as [N _].
    unfold counters_nonneg, counters_le in N. simpl in N.
    destruct N as (_ & _ & F & _). exact F.
  - vm_compute in E. discriminate E.
Defined.

(** ** The average over a run *)

Lemma exec_average (cfg : config) (e : event) (w w' : world) r :
  exec cfg e w = Some (w', r) -> is_reset e = false ->
  0 <= successfulRequests (metrics (globals w)) ->
  let ls := success_latencies (match r with Some x => [x] | None => [] end) in
  successfulRequests (metrics (globals w'))
  = successfulRequests (metrics (globals w)) + Z.of_nat (List.length ls)
  /\ (averageLatency (metrics (globals w'))
      * inject_Z (successfulRequests (metrics (globals w')))
      == averageLatency (metrics (globals w))
         * inject_Z (successfulRequests (metrics (globals w)))
         + inject_Z (sumZ ls))%Q.
Proof.
  unfold exec. destruct (_ <? _); [discriminate|].
  destruct e as [now|now d|k now|now]; intros E NR H; try discriminate NR;
    cbv zeta.
  - inversion E; subst; simpl. split; [lia|]. unfold sumZ; simpl.
    change (inject_Z 0) with 0%Q. ring.
  - destruct (pay_begin_cases cfg now d (globals w))
      as [(_ & P) | [(_ & _ & P) | (_ & _ & p & P & _)]];
      rewrite P in E; inversion E; subst; simpl;
      (split; [lia|]); unfold sumZ; simpl;
      change (inject_Z 0) with 0%Q; ring.
  - destruct (nth_error (inflight w) k) as [p|]; [|discriminate].
    destruct (Qle_bool _ _); [|discriminate].
    unfold pay_finish in E.
    destruct (p_outcome p); inversion E; subst; simpl;
      match goal with
      | |- context [updateCircuitBreaker cfg ?b now ?x] =>
          destruct (updateCircuitBreaker_frame cfg b now x)
            as (_ & _ & _ & S & _ & _ & _ & A & _);
          rewrite S, A; simpl
      end;
      try (split; [lia|]; unfold sumZ; simpl;
           change (inject_Z 0) with 0%Q; ring).
    split; [lia|].
    pose proof (recordSuccess_total (now - p_start p) (metrics (globals w)) H)
      as T. simpl in T. rewrite T.
    unfold sumZ; simpl. rewrite Z.add_0_r. reflexivity.
Qed.

Lemma success_latencies_cons (r : option response) (rs : list response) :
  success_latencies (match r with Some x => x :: rs | None => rs end)
  = success_latencies (match r with Some x => [x] | None => [] end)
    ++ success_latencies rs.
Proof.
  destruct r as [x|]; [|reflexivity].
  unfold success_latencies. simpl. rewrite app_nil_r. reflexivity.
Qed.

Lemma sumZ_app (a b : list Z) : sumZ (a ++ b) = sumZ a + sumZ b.
Proof.
  unfold sumZ. induction a as [|x a IH]; simpl; lia.
Qed.

Lemma run_average (cfg : config) (es : list event) :
  forall w w' rs,
    run cfg es w = Some (w', rs) -> reset_free es = true ->
    0 <= successfulRequests (metrics (globals w)) ->
    successfulRequests (metrics (globals w'))
    = successfulRequests (metrics (globals w))
      + Z.of_nat (List.length (success_latencies rs))
    /\ (averageLatency (metrics (globals w'))
        * inject_Z (successfulRequests (metrics (globals w')))
        == averageLatency (metrics (globals w))
           * inject_Z (successfulRequests (metrics (globals w)))
           + inject_Z (sumZ (success_latencies rs)))%Q.
Proof.
  induction es as [|e es IH]; simpl; intros w w' rs E NR H.
  - inversion E; subst. simpl. split; [lia|]. unfold sumZ; simpl.
    change (inject_Z 0) with 0%Q. ring.
  - apply andb_true_iff in NR. destruct NR as [NR1 NR2].
    apply negb_true_iff in NR1.
    destruct (exec cfg e w) as [[w1 r]|] eqn:X; [|discriminate].
    destruct (run cfg es w1) as [[w2 rs2]|] eqn:Y; [|discriminate].
    inversion E; subst.
    destruct (exec_average cfg e w w1 r X NR1 H) as [A1 A2].
    destruct (IH w1 w' rs2 Y NR2) as [B1 B2]; [lia|].
    rewrite success_latencies_cons, length_app, sumZ_app, inject_Z_plus.
    split; [lia|]. rewrite B2, A2. ring.
Qed.

(** X3.  Along a run without reset, from startup: [successfulRequests]
    is the number of success responses sent, and once a request has
    succeeded [averageLatency] lies between the smallest and the largest
    [latency] field of those responses. *)
Theorem average_within_success_latencies (cfg : config) (t0 : Z)
    (es : list event) (w : world) (rs : list response) (lo hi : Z) :
  run cfg es (boot cfg t0) = Some (w, rs) -> reset_free es = true ->
  let ls := success_latencies rs in
  successfulRequests (metrics (globals w)) = Z.of_nat (List.length ls)
  /\ (ls <> [] -> Forall (fun l => lo <= l <= hi) ls ->
      (inject_Z lo <= averageLatency (metrics (globals w)))%Q
      /\ (averageLatency (metrics (globals w)) <= inject_Z hi)%Q).
Proof.
  intros E NR. cbv zeta.
  destruct (run_average cfg es _ _ _ E NR) as [A B]; [simpl; lia|].
  simpl in A, B. split; [exact A|].
  intros Hne HF. rewrite A in B.
  destruct (sumZ_bounds lo hi _ HF) as [L U].
  apply (weighted_mean_bounds _
           (Z.of_nat (List.length (success_latencies rs)))
           (sumZ (success_latencies rs))).
  - destruct (success_latencies rs);
      [contradiction Hne; reflexivity | simpl; lia].
  - rewrite B. ring.
  - exact L.
  - exact U.
Qed.

Lemma average_within_success_latencies_witness :
  let cfg := resolveConfig (env_breaker 2) in
  match run cfg open_then_recover (boot cfg 0) with
  | Some (w, rs) =>
      successfulRequests (metrics (globals w)) = 1
      /\ (500 <= averageLatency (metrics (globals w)))%Q
      /\ (averageLatency (metrics (globals w)) <= 500)%Q
  | None => False
  end.
Proof.
  cbv zeta.
  destruct (run (resolveConfig (env_breaker 2)) open_then_recover
              (boot (resolveConfig (env_breaker 2)) 0)) as [[w rs]|] eqn:E.
  - destruct (average_within_success_latencies _ _ _ _ _ 500 500 E eq_refl)
      as [A B].
    assert (L : success_latencies rs = [500])
      by (vm_compute in E; inversion E; reflexivity).
    rewrite L in A, B. split; [exact A|].
    apply B; [discriminate|]. constructor; [lia|constructor].
  - vm_compute in E. discriminate E.
Defined.

(** ** Reset and requests in flight *)

(** X4.  A reset does not cancel the requests suspended at their delay:
    a request in flight at the reset completes afterwards and is counted
    then, so the answered-request counters show 1 while [totalRequests]
    is still 0. *)
Theorem reset_keeps_requests_in_flight (cfg : config) (w : world) (k : nat)
    (p : pending) (t now : Z) :
  nth_error (inflight w) k = Some p ->
  clock w <= t -> t <= now ->
  Qle_bool (inject_Z (p_start p) + p_delay p) (inject_Z now) = true ->
  exists w1 w2 r,
    exec cfg (PostReset t) w = Some (w1, Some ResReset)
    /\ inflight w1 = inflight w
    /\ exec cfg (PayFinish k now) w1 = Some (w2, Some r)
    /\ totalRequests (metrics (globals w2)) = 0
    /\ completed (metrics (globals w2)) = 1.
Proof.
  intros N Ht Hn D.
  assert (E1 : exec cfg (PostReset t) w
               = Some ({| clock := t; globals := reset cfg t (globals w);
                          inflight := inflight w |}, Some ResReset)).
  { unfold exec. simpl. destruct (Z.ltb_spec t (clock w)); [lia|reflexivity]. }
  eexists. exists
    {| clock := now;
       globals := fst (pay_finish cfg now p (reset cfg t (globals w)));
       inflight := remove_nth k (inflight w) |}.
  exists (snd (pay_finish cfg now p (reset cfg t (globals w)))).
  split; [exact E1|]. split; [reflexivity|]. split.
  - unfold exec. simpl. destruct (Z.ltb_spec now t); [lia|].
    rewrite N, D. destruct (pay_finish cfg now p _). reflexivity.
  - simpl.
    pose proof (pay_finish_counters cfg now p (reset cfg t (globals w))) as C.
    cbv zeta in C. destruct C as (T & R & S & F & O & _).
    unfold completed. rewrite T, R, S, F, O. simpl.
    destruct (p_outcome p); split; lia.
Qed.

Lemma reset_keeps_requests_in_flight_witness :
  let cfg := resolveConfig empty_env in
  let p := {| p_outcome := SUCCESS; p_start := 0; p_delay := 500 |} in
  let w := {| clock := 0; globals := initialStore cfg 0; inflight := [p] |} in
  exists w1 w2 r,
    exec cfg (PostReset 100) w = Some (w1, Some ResReset)
    /\ inflight w1 = inflight w
    /\ exec cfg (PayFinish 0 500) w1 = Some (w2, Some r)
    /\ totalRequests (metrics (globals w2)) = 0
    /\ completed (metrics (globals w2)) = 1.
Proof.
  cbv zeta.
  apply (reset_keeps_requests_in_flight (resolveConfig empty_env)
           {| clock := 0; globals := initialStore (resolveConfig empty_env) 0;
              inflight := [{| p_outcome := SUCCESS; p_start := 0;
                              p_delay := 500 |}] |}
           0 {| p_outcome := SUCCESS; p_start := 0; p_delay := 500 |} 100 500).
  - reflexivity.
  - simpl. lia.
  - lia.
  - reflexivity.
Defined.

(** ** Requests turned away *)

(** X5.  While the breaker is OPEN, a request that arrives no later than
    [circuitBreakerTimeout] ms after the last failure (the bound
    included) is answered "breaker open": it is counted in
    [totalRequests] and [failedRequests], takes no token and leaves the
    breaker, its failure count included, as it was.  A request that
    arrives later moves the phase to HALF_OPEN and is not answered
    "breaker open". *)
Theorem open_breaker_window (cfg : config) (now : Z) (d : draws) (s : store) :
  state (circuitBreaker s) = OPEN ->
  let s' := fst (pay_begin cfg now d s) in
  (now - lastFailure (circuitBreaker s) <= circuitBreakerTimeout cfg ->
   snd (pay_begin cfg now d s) = inl Res503_breaker
   /\ tokens s' = tokens s
   /\ circuitBreaker s' = circuitBreaker s
   /\ totalRequests (metrics s') = totalRequests (metrics s) + 1
   /\ failedRequests (metrics s') = failedRequests (metrics s) + 1
   /\ rateLimitedRequests (metrics s') = rateLimitedRequests (metrics s))
  /\ (circuitBreakerTimeout cfg < now - lastFailure (circuitBreaker s) ->
      snd (pay_begin cfg now d s) <> inl Res503_breaker
      /\ state (circuitBreaker s') = HALF_OPEN
      /\ failures (circuitBreaker s') = failures (circuitBreaker s)
      /\ lastFailure (circuitBreaker s') = lastFailure (circuitBreaker s)).
Proof.
  intros Ho. cbv zeta.
  assert (G : checkCircuitBreaker cfg now s
              = if circuitBreakerTimeout cfg <? now - lastFailure (circuitBreaker s)
                then (true,
                      set_circuitBreaker
                        {| failures := failures (circuitBreaker s);
                           lastFailure := lastFailure (circuitBreaker s);
                           state := HALF_OPEN |} s)
                else (false, s))
    by (unfold checkCircuitBreaker; rewrite Ho; reflexivity).
  split; intros W.
  - destruct (Z.ltb_spec (circuitBreakerTimeout cfg)
                (now - lastFailure (circuitBreaker s))); [lia|].
    destruct (pay_begin_cases cfg now d s)
      as [(_ & P) | [(K & _) | (K & _)]];
      try (rewrite G in K; discriminate K).
    rewrite P. simpl. repeat split.
  - destruct (Z.ltb_spec (circuitBreakerTimeout cfg)
                (now - lastFailure (circuitBreaker s))); [|lia].
    destruct (pay_begin_cases cfg now d s)
      as [(K & _) | [(_ & _ & P) | (_ & _ & p & P & _)]];
      try (rewrite G in K; discriminate K);
      rewrite P, G; simpl; repeat split; discriminate.
Qed.

Lemma open_breaker_window_witness :
  let cfg := resolveConfig (env_breaker 1) in
  snd (pay_begin cfg 30500 (draws_for SUCCESS) (store_open_at_500 cfg))
  = inl Res503_breaker
  /\ state (circuitBreaker
              (fst (pay_begin cfg 30501 (draws_for SUCCESS)
                      (store_open_at_500 cfg)))) = HALF_OPEN.
Proof.
  cbv zeta.
  destruct (open_breaker_window (resolveConfig (env_breaker 1)) 30500
              (draws_for SUCCESS)
              (store_open_at_500 (resolveConfig (env_breaker 1))) eq_refl)
    as [A _].
  destruct (open_breaker_window (resolveConfig (env_breaker 1)) 30501
              (draws_for SUCCESS)
              (store_open_at_500 (resolveConfig (env_breaker 1))) eq_refl)
    as [_ B].
  split.
  - apply A. simpl. lia.
  - apply B. simpl. lia.
Defined.

(** X6.  A request answered "rate limit exceeded" found less than one
    token; it is counted in [totalRequests] and [rateLimitedRequests]
    only, takes no token, and leaves the breaker's failure count, last
    failure time and trip counter alone.  It still passed the gate
    first, so if the breaker was OPEN it is HALF_OPEN afterwards. *)
Theorem rate_limited_request_effects (cfg : config) (now : Z) (d : draws)
    (s : store) :
  snd (pay_begin cfg now d s) = inl Res429 ->
  let s' := fst (pay_begin cfg now d s) in
  (tokens s < 1)%Q
  /\ tokens s' = tokens s
  /\ totalRequests (metrics s') = totalRequests (metrics s) + 1
  /\ rateLimitedRequests (metrics s') = rateLimitedRequests (metrics s) + 1
  /\ failedRequests (metrics s') = failedRequests (metrics s)
  /\ circuitBreakerTrips (metrics s') = circuitBreakerTrips (metrics s)
  /\ failures (circuitBreaker s') = failures (circuitBreaker s)
  /\ lastFailure (circuitBreaker s') = lastFailure (circuitBreaker s)
  /\ state (circuitBreaker s')
     = match state (circuitBreaker s) with
       | OPEN => HALF_OPEN
       | ph => ph
       end.
Proof.
  intros R. cbv zeta.
  destruct (pay_begin_cases cfg now d s)
    as [(_ & P) | [(K & T & P) | (_ & _ & p & P & _)]];
    rewrite P in R; try discriminate R.
  rewrite P. simpl.
  destruct (checkCircuitBreaker_frame cfg now s) as (Ft & _ & _ & Ff & Fl).
  split; [exact T|]. split; [exact Ft|].
  repeat (split; [reflexivity|]).
  split; [exact Ff|]. split; [exact Fl|].
  revert K. unfold checkCircuitBreaker.
  destruct (state (circuitBreaker s)) eqn:E; simpl; try (rewrite E; reflexivity).
  destruct (_ <? _); simpl; [reflexivity|discriminate].
Qed.

Lemma rate_limited_request_effects_witness :
  let cfg := resolveConfig (env_breaker 1) in
  let s := set_tokens (1 # 2) (store_open_at_500 cfg) in
  rateLimitedRequests (metrics (fst (pay_begin cfg 31000 (draws_for SUCCESS) s)))
  = 1
  /\ state (circuitBreaker (fst (pay_begin cfg 31000 (draws_for SUCCESS) s)))
     = HALF_OPEN.
Proof.
  cbv zeta.
  destruct (rate_limited_request_effects (resolveConfig (env_breaker 1)) 31000
              (draws_for SUCCESS)
              (set_tokens (1 # 2)
                 (store_open_at_500 (resolveConfig (env_breaker 1))))
              eq_refl)
    as (_ & _ & _ & R & _ & _ & _ & _ & P).
  split; [exact R | exact P].
Defined.

(** ** What the trip counter counts *)

Lemma phase_eqb_eq (a b : phase) : phase_eqb a b = true <-> a = b.
Proof. destruct a, b; simpl; split; congruence. Qed.

Lemma pay_begin_breaker (cfg : config) (now : Z) (d : draws) (s : store) :
  let s' := fst (pay_begin cfg now d s) in
  circuitBreakerTrips (metrics s') = circuitBreakerTrips (metrics s)
  /\ failures (circuitBreaker s') = failures (circuitBreaker s)
  /\ (state (circuitBreaker s') = state (circuitBreaker s)
      \/ state (circuitBreaker s) = OPEN
         /\ state (circuitBreaker s') = HALF_OPEN).
Proof.
  cbv zeta.
  destruct (checkCircuitBreaker_frame cfg now s) as (_ & _ & _ & Ff & _).
  assert (P : state (circuitBreaker (snd (checkCircuitBreaker cfg now s)))
              = state (circuitBreaker s)
              \/ state (circuitBreaker s) = OPEN
                 /\ state (circuitBreaker (snd (checkCircuitBreaker cfg now s)))
                    = HALF_OPEN).
  { unfold checkCircuitBreaker.
    destruct (state (circuitBreaker s)) eqn:E; simpl; try (left; exact E).
    destruct (_ <? _); simpl; [right; split; reflexivity | left; exact E]. }
  destruct (pay_begin_cases cfg now d s)
    as [(_ & Q) | [(_ & _ & Q) | (_ & _ & p & Q & _)]];
    rewrite Q; simpl; repeat split; try exact Ff; try exact P.
  left. reflexivity.
Qed.

Lemma exec_trips (cfg : config) (e : event) (w w' : world) r :
  breaker_ok cfg (globals w) ->
  exec cfg e w = Some (w', r) -> is_reset e = false ->
  trips_of w'
  = trips_of w
    + (if negb (phase_eqb (phase_of w) OPEN) && phase_eqb (phase_of w') OPEN
       then 1 else 0)
    + (if phase_eqb (phase_of w) OPEN && failure_report e r then 1 else 0).
Proof.
  intros Ok. unfold exec, trips_of, phase_of.
  destruct (_ <? _); [discriminate|].
  destruct e as [now|now d|k now|now]; intros E NR; try discriminate NR.
  - inversion E; subst; simpl.
    destruct (state (circuitBreaker (globals w))); simpl; lia.
  - pose proof (pay_begin_breaker cfg now d (globals w)) as B.
    cbv zeta in B. destruct B as (T & _ & P).
    assert (X : globals w' = fst (pay_begin cfg now d (globals w)))
      by (destruct (pay_begin cfg now d (globals w)) as [s' [x|q]];
          inversion E; reflexivity).
    rewrite X, T. simpl. rewrite andb_false_r.
    destruct P as [P | [P1 P2]].
    + rewrite P. destruct (state (circuitBreaker (globals w))); simpl; lia.
    + rewrite P1, P2. simpl. lia.
  - destruct (nth_error (inflight w) k) as [p|]; [|discriminate].
    destruct (Qle_bool _ _); [|discriminate].
    unfold pay_finish in E.
    destruct (p_outcome p); inversion E; subst; simpl;
      match goal with
      | |- context [updateCircuitBreaker cfg ?b now ?x] =>
          pose proof (updateCircuitBreaker_trips cfg b now x) as Tr;
          pose proof (trips_follow_entry_into_open cfg b now x) as En;
          cbv zeta in En; simpl in Tr, En
      end.
    4: { rewrite Tr, andb_false_r. simpl. rewrite andb_false_r.
         assert (S : state (circuitBreaker
                              (updateCircuitBreaker cfg true now
                                 (set_metrics
                                    (recordSuccess (now - p_start p)
                                       (metrics (globals w))) (globals w))))
                     <> OPEN
                     \/ state (circuitBreaker (globals w)) = OPEN).
         { unfold updateCircuitBreaker. destruct (negb _); simpl.
           - destruct (state (circuitBreaker (globals w)));
               [left; discriminate | right; reflexivity | left; discriminate].
           - destruct (state (circuitBreaker (globals w))) eqn:S0; simpl;
               try rewrite S0;
               [left; discriminate | right; reflexivity | left; discriminate]. }
         destruct S as [S|S].
         - destruct (state (circuitBreaker (updateCircuitBreaker _ _ _ _)));
             try (contradiction S; reflexivity);
             destruct (state (circuitBreaker (globals w))); simpl; lia.
         - rewrite S. simpl. lia. }
    all: rewrite andb_true_r;
      destruct (state (circuitBreaker (globals w))) eqn:S0; simpl;
      try (rewrite En by discriminate; lia).
    all: destruct (Ok ltac:(rewrite S0; discriminate)) as [Ee Th];
      rewrite Tr, Ee; simpl;
      destruct (Z.leb_spec (circuitBreakerThreshold cfg)
                  (failures (circuitBreaker (globals w)) + 1)); lia.
Qed.

Lemma trace_cons (cfg : config) (e : event) (es : list event) (w w1 : world) r :
  exec cfg e w = Some (w1, r) ->
  open_transitions (trace cfg (e :: es) w)
  = (if negb (phase_eqb (phase_of w) OPEN) && phase_eqb (phase_of w1) OPEN
     then 1 else 0)
    + open_transitions (trace cfg es w1).
Proof.
  intros X. simpl trace. rewrite X.
  destruct es as [|e2 es2]; reflexivity.
Qed.

(** X8.  Along a run without reset from a reachable state, the trip
    counter grows by the number of entries into OPEN plus the number of
    failures reported while the phase was already OPEN; it never counts
    less than the entries into OPEN. *)
Theorem trip_counter_law (cfg : config) (es : list event) :
  forall w w' rs,
    reachable cfg w ->
    run cfg es w = Some (w', rs) -> reset_free es = true ->
    trips_of w'
    = trips_of w + open_transitions (trace cfg es w)
      + reports_while_open cfg es w
    /\ 0 <= reports_while_open cfg es w.
Proof.
  induction es as [|e es IH]; intros w w' rs R E NR.
  - simpl in *. inversion E; subst. split; lia.
  - simpl in NR. apply andb_true_iff in NR. destruct NR as [NR1 NR2].
    apply negb_true_iff in NR1. simpl in E.
    destruct (exec cfg e w) as [[w1 r]|] eqn:X; [|discriminate].
    destruct (run cfg es w1) as [[w2 rs2]|] eqn:Y; [|discriminate].
    inversion E; subst.
    assert (R1 : reachable cfg w1) by (eapply reach_step; eassumption).
    destruct (IH w1 w' rs2 R1 Y NR2) as [A N].
    pose proof (exec_trips cfg e w w1 r (reachable_breaker_ok cfg w R) X NR1)
      as T.
    rewrite (trace_cons cfg e es w w1 r X).
    simpl reports_while_open. rewrite X.
    split; [lia|].
    destruct (phase_eqb (phase_of w) OPEN && failure_report e r); lia.
Qed.

Lemma trip_counter_law_witness :
  let cfg := resolveConfig (env_breaker 2) in
  match run cfg overlapping_failures (boot cfg 0) with
  | Some (w, _) =>
      trips_of w
      = 0 + open_transitions (trace cfg overlapping_failures (boot cfg 0))
        + reports_while_open cfg overlapping_failures (boot cfg 0)
      /\ reports_while_open cfg overlapping_failures (boot cfg 0) = 1
  | None => False
  end.
Proof.
  cbv zeta.
  destruct (run (resolveConfig (env_breaker 2)) overlapping_failures
              (boot (resolveConfig (env_breaker 2)) 0)) as [[w rs]|] eqn:E.
  - destruct (trip_counter_law (resolveConfig (env_breaker 2))
                overlapping_failures _ _ _ (reach_boot _ 0) E eq_refl)
      as [A _].
    split; [exact A|]. vm_compute. reflexivity.
  - vm_compute in E. discriminate E.
Defined.

(** ** Failures are counted in total, not in a row *)

Lemma failure_responses_cons (r : option response) (rs : list response) :
  failure_responses (match r with Some x => x :: rs | None => rs end)
  = failure_responses (match r with Some x => [x] | None => [] end)
    + failure_responses rs.
Proof.
  unfold failure_responses. destruct r as [x|]; [|simpl; lia].
  simpl filter. destruct (is_failure_response x); [|simpl; lia].
  simpl List.length. rewrite Nat2Z.inj_succ. lia.
Qed.

Lemma updateCircuitBreaker_streak_ok (cfg : config) (b : bool) (now : Z)
    (c : Z) (s : store) :
  circuitBreakerEnabled cfg = true ->
  streak_ok cfg c s ->
  streak_ok cfg (c + (if b then 0 else 1)) (updateCircuitBreaker cfg b now s).
Proof.
  intros En (C0 & T0 & Z0 & P0). unfold streak_ok, updateCircuitBreaker.
  rewrite En. simpl. destruct b.
  - rewrite Z.add_0_r. split; [exact C0|].
    destruct (state (circuitBreaker s)) eqn:E; simpl; try rewrite E.
    + split; [exact T0|]. split; assumption.
    + split; [exact T0|]. split; assumption.
    + split; [exact T0|]. split.
      * intros H. destruct (Z0 H) as (C & _). congruence.
      * exact P0.
  - split; [lia|].
    destruct (Z.leb_spec (circuitBreakerThreshold cfg)
                (failures (circuitBreaker s) + 1)) as [L|L]; simpl.
    + split; [lia|]. split; [intros H; lia|].
      intros _.
      destruct (Z.eq_dec (circuitBreakerTrips (metrics s)) 0) as [Z1|Z1].
      * destruct (Z0 Z1) as (_ & F & _). lia.
      * destruct P0 as [P1 P2]; lia.
    + split; [exact T0|]. split.
      * intros H. destruct (Z0 H) as (C & F & K).
        split; [exact C|]. split; lia.
      * intros H. destruct (P0 H). lia.
Qed.

Lemma streak_ok_same (cfg : config) (c : Z) (s s' : store) :
  circuitBreaker s' = circuitBreaker s ->
  circuitBreakerTrips (metrics s') = circuitBreakerTrips (metrics s) ->
  streak_ok cfg c s -> streak_ok cfg c s'.
Proof.
  unfold streak_ok. intros -> ->. tauto.
Qed.

Lemma exec_streak_ok (cfg : config) (e : event) (w w' : world) r (c : Z) :
  circuitBreakerEnabled cfg = true ->
  exec cfg e w = Some (w', r) -> is_reset e = false ->
  streak_ok cfg c (globals w) ->
  streak_ok cfg
    (c + failure_responses (match r with Some x => [x] | None => [] end))
    (globals w').
Proof.
  intros En. unfold exec. destruct (_ <? _); [discriminate|].
  destruct e as [now|now d|k now|now]; intros E NR H; try discriminate NR.
  - inversion E; subst. unfold failure_responses. simpl.
    rewrite Z.add_0_r. eapply streak_ok_same; [| |exact H]; reflexivity.
  - pose proof (pay_begin_breaker cfg now d (globals w)) as B.
    cbv zeta in B. destruct B as (T & F & P).
    assert (X : globals w' = fst (pay_begin cfg now d (globals w))
                /\ failure_responses
                     (match r with Some x => [x] | None => [] end) = 0).
    { destruct (pay_begin_cases cfg now d (globals w))
        as [(_ & Q) | [(_ & _ & Q) | (_ & _ & p & Q & _)]];
        rewrite Q in E |- *; inversion E; subst; split; reflexivity. }
    destruct X as [X1 X2]. rewrite X1, X2, Z.add_0_r.
    destruct H as (C0 & T0 & Z0 & P0). unfold streak_ok. rewrite T, F.
    split; [exact C0|]. split; [exact T0|]. split; [|exact P0].
    intros Hz. destruct (Z0 Hz) as (C & F0 & K).
    destruct P as [P | [P1 _]]; [|congruence].
    rewrite P. repeat split; assumption.
  - destruct (nth_error (inflight w) k) as [p|]; [|discriminate].
    destruct (Qle_bool _ _); [|discriminate].
    unfold pay_finish in E.
    destruct (p_outcome p); inversion E; subst;
      match goal with
      | |- context [updateCircuitBreaker cfg ?b now ?x] =>
          apply (updateCircuitBreaker_streak_ok cfg b now c x En);
          (eapply streak_ok_same; [| |exact H]); reflexivity
      end.
Qed.

Lemma run_streak_ok (cfg : config) (es : list event) :
  circuitBreakerEnabled cfg = true ->
  forall w w' rs c,
    run cfg es w = Some (w', rs) -> reset_free es = true ->
    streak_ok cfg c (globals w) ->
    streak_ok cfg (c + failure_responses rs) (globals w').
Proof.
  intros En. induction es as [|e es IH]; simpl; intros w w' rs c E NR H.
  - inversion E; subst. unfold failure_responses; simpl.
    rewrite Z.add_0_r. exact H.
  - apply andb_true_iff in NR. destruct NR as [NR1 NR2].
    apply negb_true_iff in NR1.
    destruct (exec cfg e w) as [[w1 r]|] eqn:X; [|discriminate].
    destruct (run cfg es w1) as [[w2 rs2]|] eqn:Y; [|discriminate].
    inversion E; subst.
    rewrite failure_responses_cons, Z.add_assoc.
    eapply IH; [exact Y | exact NR2 |].
    eapply exec_streak_ok; eassumption.
Qed.

(** X7.  With the breaker enabled, along a run without reset from
    startup, let [c] be the number of failure responses sent (408, 500
    and the transient 503).  The trip counter is still 0 exactly when
    [c] is 0 or below the threshold; and as long as it is 0 the breaker
    is CLOSED and its failure count is [c], whatever successes were
    answered in between: failures are counted in total, not in a row. *)
Theorem breaker_trips_on_total_failures (cfg : config) (t0 : Z)
    (es : list event) (w : world) (rs : list response) :
  circuitBreakerEnabled cfg = true ->
  run cfg es (boot cfg t0) = Some (w, rs) -> reset_free es = true ->
  let c := failure_responses rs in
  (trips_of w = 0 <-> c = 0 \/ c < circuitBreakerThreshold cfg)
  /\ (trips_of w = 0 ->
      phase_of w = CLOSED /\ failures (circuitBreaker (globals w)) = c).
Proof.
  intros En E NR. cbv zeta.
  assert (H0 : streak_ok cfg 0 (globals (boot cfg t0))).
  { unfold streak_ok; simpl. split; [lia|]. split; [lia|]. split; [|lia].
    intros _. repeat split. left. reflexivity. }
  pose proof (run_streak_ok cfg es En _ _ _ 0 E NR H0) as (_ & T & Z0 & P).
  rewrite Z.add_0_l in Z0, P. unfold trips_of, phase_of. split.
  - split.
    + intros H. destruct (Z0 H) as (_ & _ & K). exact K.
    + intros K.
      destruct (Z.eq_dec (circuitBreakerTrips (metrics (globals w))) 0)
        as [Z1|Z1]; [exact Z1|].
      destruct P as [P1 P2]; lia.
  - intros H. destruct (Z0 H) as (C & F & _). split; assumption.
Qed.

Lemma breaker_trips_on_total_failures_witness :
  let cfg := resolveConfig (env_breaker 2) in
  match run cfg open_then_recover (boot cfg 0) with
  | Some (w, rs) => failure_responses rs = 2 /\ trips_of w <> 0
  | None => False
  end.
Proof.
  cbv zeta.
  destruct (run (resolveConfig (env_breaker 2)) open_then_recover
              (boot (resolveConfig (env_breaker 2)) 0)) as [[w rs]|] eqn:E.
  - destruct (breaker_trips_on_total_failures
                (resolveConfig (env_breaker 2)) 0 open_then_recover w rs
                eq_refl E eq_refl)
      as [[A _] _].
    assert (C : failure_responses rs = 2)
      by (vm_compute in E; inversion E; reflexivity).
    split; [exact C|]. intros H. specialize (A H). rewrite C in A.
    simpl in A. lia.
  - vm_compute in E. discriminate E.
Defined.

(** ** The breaker outside CLOSED *)

Lemma updateCircuitBreaker_tripped_ok (cfg : config) (b : bool) (now : Z)
    (s : store) :
  tripped_ok s -> tripped_ok (updateCircuitBreaker cfg b now s).
Proof.
  unfold tripped_ok, updateCircuitBreaker. intros (T & F & N).
  destruct (negb _); simpl; [tauto|].
  destruct b.
  - destruct (state (circuitBreaker s)) eqn:E; simpl; try rewrite E;
      repeat split; try lia; try assumption.
    intros C. contradiction C. reflexivity.
  - destruct (_ <=? _); simpl; repeat split; try lia.
    intros C. specialize (N C). lia.
Qed.

Lemma exec_tripped_ok (cfg : config) (e : event) (w w' : world) r :
  exec cfg e w = Some (w', r) ->
  tripped_ok (globals w) -> tripped_ok (globals w').
Proof.
  unfold exec. destruct (_ <? _); [discriminate|].
  destruct e as [now|now d|k now|now]; intros E H.
  - inversion E; subst; exact H.
  - pose proof (pay_begin_breaker cfg now d (globals w)) as B.
    cbv zeta in B. destruct B as (T & F & P).
    assert (X : globals w' = fst (pay_begin cfg now d (globals w)))
      by (destruct (pay_begin cfg now d (globals w)) as [s' [x|q]];
          inversion E; reflexivity).
    destruct H as (H1 & H2 & H3). unfold tripped_ok. rewrite X, T, F.
    repeat split; try assumption.
    destruct P as [P | [P1 P2]].
    + rewrite P. exact H3.
    + intros _. apply H3. rewrite P1. discriminate.
  - destruct (nth_error (inflight w) k) as [p|]; [|discriminate].
    destruct (Qle_bool _ _); [|discriminate].
    unfold pay_finish in E.
    destruct (p_outcome p); inversion E; subst; simpl;
      apply updateCircuitBreaker_tripped_ok; exact H.
  - inversion E; subst. unfold tripped_ok; simpl.
    repeat split; try lia. intros C. contradiction C. reflexivity.
Qed.

(** X9.  In every reachable state in which the phase is OPEN or
    HALF_OPEN, the breaker is enabled, the failure count has reached the
    threshold, and the trip counter is at least 1. *)
Theorem breaker_outside_closed (cfg : config) (w : world) :
  reachable cfg w -> phase_of w <> CLOSED ->
  circuitBreakerEnabled cfg = true
  /\ circuitBreakerThreshold cfg <= failures (circuitBreaker (globals w))
  /\ 1 <= trips_of w.
Proof.
  intros R N.
  destruct (reachable_breaker_ok cfg w R N) as [En Th].
  split; [exact En|]. split; [exact Th|].
  assert (T : tripped_ok (globals w)).
  { clear N En Th. induction R as [t0 | w e w' r _ IH E].
    - unfold tripped_ok; simpl. repeat split; try lia.
      intros C. contradiction C. reflexivity.
    - eapply exec_tripped_ok; eassumption. }
  destruct T as (_ & _ & T). apply T. exact N.
Qed.

Lemma breaker_outside_closed_witness :
  let cfg := resolveConfig (env_breaker 1) in
  match run cfg probes_after_window (boot cfg 0) with
  | Some (w, _) =>
      phase_of w = HALF_OPEN
      /\ 1 <= failures (circuitBreaker (globals w)) /\ 1 <= trips_of w
  | None => False
  end.
Proof.
  cbv zeta.
  destruct (run (resolveConfig (env_breaker 1)) probes_after_window
              (boot (resolveConfig (env_breaker 1)) 0)) as [[w rs]|] eqn:E.
  - assert (R : reachable (resolveConfig (env_breaker 1)) w)
      by (eapply run_reachable; [apply reach_boot | exact E]).
    assert (P : phase_of w = HALF_OPEN)
      by (vm_compute in E; inversion E; reflexivity).
    destruct (breaker_outside_closed _ w R) as (_ & F & T);
      [rewrite P; discriminate|].
    split; [exact P|]. split; [exact F | exact T].
  - vm_compute in E. discriminate E.
Defined.

(** ** Enabling the breaker *)

Lemma exec_breaker_idle (cfg : config) (e : event) (w w' : world) r :
  circuitBreakerEnabled cfg = false ->
  exec cfg e w = Some (w', r) -> breaker_idle (globals w) ->
  breaker_idle (globals w') /\ r <> Some Res503_breaker.
Proof.
  intros Dis. unfold exec. destruct (_ <? _); [discriminate|].
  destruct e as [now|now d|k now|now]; intros E [B T].
  - inversion E; subst. split; [split; assumption | discriminate].
  - assert (G : checkCircuitBreaker cfg now (globals w) = (true, globals w))
      by (unfold checkCircuitBreaker; rewrite B; reflexivity).
    destruct (pay_begin_cases cfg now d (globals w))
      as [(K & _) | [(_ & _ & P) | (_ & _ & p & P & _)]];
      try (rewrite G in K; discriminate K);
      rewrite P, G in E; inversion E; subst; simpl;
      (split; [split; assumption | discriminate]).
  - destruct (nth_error (inflight w) k) as [p|]; [|discriminate].
    destruct (Qle_bool _ _); [|discriminate].
    unfold pay_finish in E.
    destruct (p_outcome p); inversion E; subst; simpl;
      rewrite (updateCircuitBreaker_disabled cfg _ now _ Dis); simpl;
      (split; [split; assumption | discriminate]).
  - inversion E; subst. split; [split; reflexivity | discriminate].
Qed.

Lemma is_true_string_exact (v : option string) :
  is_true_string v = true <-> v = Some "true"%string.
Proof.
  destruct v as [s|]; simpl.
  - rewrite String.eqb_eq. split; congruence.
  - split; discriminate.
Qed.

(** X10.  The breaker is enabled only by [CIRCUIT_BREAKER] being exactly
    the string [true].  With any other value, or none, no run from
    startup ever answers "breaker open", and at its end the breaker is
    still CLOSED with no failure recorded and the trip counter is 0. *)
Theorem breaker_needs_exact_true (e : env) (t0 : Z) (es : list event)
    (w : world) (rs : list response) :
  CIRCUIT_BREAKER e <> Some "true"%string ->
  run (resolveConfig e) es (boot (resolveConfig e) t0) = Some (w, rs) ->
  circuitBreakerEnabled (resolveConfig e) = false
  /\ circuitBreaker (globals w) = initialBreaker
  /\ trips_of w = 0
  /\ ~ In Res503_breaker rs.
Proof.
  intros Hne E.
  assert (Dis : circuitBreakerEnabled (resolveConfig e) = false).
  { simpl. destruct (is_true_string (CIRCUIT_BREAKER e)) eqn:X; [|reflexivity].
    apply is_true_string_exact in X. contradiction. }
  split; [exact Dis|].
  assert (G : forall es w0 w1 rs1,
             breaker_idle (globals w0) ->
             run (resolveConfig e) es w0 = Some (w1, rs1) ->
             breaker_idle (globals w1) /\ ~ In Res503_breaker rs1).
  { clear E. induction es0 as [|x xs IH]; simpl; intros w0 w1 rs1 I R.
    - inversion R; subst. split; [exact I | intros []].
    - destruct (exec (resolveConfig e) x w0) as [[w2 r]|] eqn:X; [|discriminate].
      destruct (run (resolveConfig e) xs w2) as [[w3 rs3]|] eqn:Y;
        [|discriminate].
      inversion R; subst.
      destruct (exec_breaker_idle _ x w0 w2 r Dis X I) as [I2 N2].
      destruct (IH w2 w1 rs3 I2 Y) as [I3 N3].
      split; [exact I3|].
      destruct r as [y|]; [|exact N3].
      intros [H|H]; [apply N2; congruence | exact (N3 H)]. }
  destruct (G es (boot (resolveConfig e) t0) w rs) as [[B T] N];
    [split; reflexivity | exact E |].
  split; [exact B|]. split; [exact T | exact N].
Qed.

Lemma breaker_needs_exact_true_witness :
  let cfg := resolveConfig env_breaker_uppercase in
  match run cfg overlapping_failures (boot cfg 0) with
  | Some (w, rs) => trips_of w = 0 /\ ~ In Res503_breaker rs
  | None => False
  end.
Proof.
  cbv zeta.
  destruct (run (resolveConfig env_breaker_uppercase) overlapping_failures
              (boot (resolveConfig env_breaker_uppercase) 0))
    as [[w rs]|] eqn:E.
  - destruct (breaker_needs_exact_true env_breaker_uppercase 0
                overlapping_failures w rs) as (_ & _ & T & N).
    + discriminate.
    + exact E.
    + split; [exact T | exact N].
  - vm_compute in E. discriminate E.
Defined.

(** ** Bursts *)

Lemma exec_pay_begin_admitted (cfg : config) (w : world) (now : Z) (d : draws) :
  clock w <= now -> phase_of w <> OPEN -> (1 <= tokens (globals w))%Q ->
  exists w',
    exec cfg (PayBegin now d) w = Some (w', None)
    /\ clock w' = now
    /\ phase_of w' = phase_of w
    /\ tokens (globals w') = (tokens (globals w) - 1)%Q
    /\ List.length (inflight w') = S (List.length (inflight w)).
Proof.
  intros Hc Hp Ht. unfold phase_of in *.
  assert (G : checkCircuitBreaker cfg now (globals w) = (true, globals w)).
  { unfold checkCircuitBreaker.
    destruct (state (circuitBreaker (globals w))); try reflexivity.
    contradiction Hp. reflexivity. }
  destruct (pay_begin_cases cfg now d (globals w))
    as [(K & _) | [(_ & T & _) | (_ & _ & p & P & _)]].
  - rewrite G in K. discriminate K.
  - lra.
  - rewrite G in P. simpl in P.
    eexists. unfold exec. simpl.
    destruct (Z.ltb_spec now (clock w)); [lia|].
    rewrite P. split; [reflexivity|]. simpl.
    repeat split. rewrite length_app. simpl. lia.
Qed.

Lemma exec_pay_begin_limited (cfg : config) (w : world) (now : Z) (d : draws) :
  clock w <= now -> phase_of w <> OPEN -> (tokens (globals w) < 1)%Q ->
  exists w', exec cfg (PayBegin now d) w = Some (w', Some Res429)
             /\ tokens (globals w') = tokens (globals w).
Proof.
  intros Hc Hp Ht. unfold phase_of in *.
  assert (G : checkCircuitBreaker cfg now (globals w) = (true, globals w)).
  { unfold checkCircuitBreaker.
    destruct (state (circuitBreaker (globals w))); try reflexivity.
    contradiction Hp. reflexivity. }
  destruct (pay_begin_cases cfg now d (globals w))
    as [(K & _) | [(_ & _ & P) | (_ & T & _)]].
  - rewrite G in K. discriminate K.
  - rewrite G in P. simpl in P.
    eexists. unfold exec. simpl.
    destruct (Z.ltb_spec now (clock w)); [lia|].
    rewrite P. split; reflexivity.
  - lra.
Qed.

(** X11.  When the breaker is not OPEN and the bucket holds at least
    [k] tokens, [k] requests arriving together are all admitted, each
    taking one token; and once less than one token is left, the next
    request is answered "rate limit exceeded" and takes nothing. *)
Theorem burst_admitted_then_limited (cfg : config) (now : Z) (d : draws)
    (k : nat) :
  forall w,
    clock w <= now -> phase_of w <> OPEN ->
    (inject_Z (Z.of_nat k) <= tokens (globals w))%Q ->
    exists w',
      run cfg (repeat (PayBegin now d) k) w = Some (w', [])
      /\ (tokens (globals w') == tokens (globals w) - inject_Z (Z.of_nat k))%Q
      /\ List.length (inflight w') = (List.length (inflight w) + k)%nat
      /\ ((tokens (globals w') < 1)%Q ->
          exists w'',
            exec cfg (PayBegin now d) w' = Some (w'', Some Res429)
            /\ tokens (globals w'') = tokens (globals w')).
Proof.
  induction k as [|k IH]; intros w Hc Hp Ht.
  - exists w. simpl. split; [reflexivity|]. split; [|split; [lia|]].
    + change (inject_Z 0) with 0%Q. ring.
    + intros L. apply exec_pay_begin_limited; assumption.
  - assert (S1 : (inject_Z (Z.of_nat (S k)) == inject_Z (Z.of_nat k) + 1)%Q).
    { rewrite Nat2Z.inj_succ. unfold Z.succ. rewrite inject_Z_plus.
      reflexivity. }
    assert (N : (0 <= inject_Z (Z.of_nat k))%Q)
      by (change 0%Q with (inject_Z 0); rewrite <- Zle_Qle; lia).
    destruct (exec_pay_begin_admitted cfg w now d Hc Hp)
      as (w1 & X & C1 & P1 & T1 & L1); [lra|].
    destruct (IH w1) as (w' & R & T & L & Z1);
      [lia | rewrite P1; exact Hp | rewrite T1; lra |].
    exists w'. simpl. rewrite X, R.
    split; [reflexivity|]. split; [|split; [lia|exact Z1]].
    rewrite T, T1, S1. ring.
Qed.

Lemma burst_admitted_then_limited_witness :
  let cfg := resolveConfig empty_env in
  exists w',
    run cfg (repeat (PayBegin 0 (draws_for SUCCESS)) 5) (boot cfg 0)
    = Some (w', [])
    /\ (tokens (globals w') == 0)%Q
    /\ exists w'',
        exec cfg (PayBegin 0 (draws_for SUCCESS)) w' = Some (w'', Some Res429).
Proof.
  cbv zeta.
  destruct (burst_admitted_then_limited (resolveConfig empty_env) 0
              (draws_for SUCCESS) 5 (boot (resolveConfig empty_env) 0))
    as (w' & R & T & _ & Z1).
  - simpl. lia.
  - discriminate.
  - simpl. apply Qle_refl.
  - exists w'. split; [exact R|].
    assert (T0 : (tokens (globals w') == 0)%Q) by (rewrite T; reflexivity).
    split; [exact T0|].
    destruct Z1 as (w'' & X & _); [rewrite T0; reflexivity|].
    exists w''. exact X.
Defined.

(** ** Refill *)

Lemma elapsed_tokens_nonneg (cfg : config) (a b : Z) :
  0 <= tps cfg -> a <= b ->
  (0 <= inject_Z (b - a) / 1000 * inject_Z (tps cfg))%Q.
Proof.
  intros Ht Hab. apply Qmult_le_0_compat.
  - unfold Qdiv. apply Qmult_le_0_compat; [|discriminate].
    change 0%Q with (inject_Z 0). rewrite <- Zle_Qle. lia.
  - change 0%Q with (inject_Z 0). rewrite <- Zle_Qle. exact Ht.
Qed.

(** X12.  With a non-negative [tps] and a time that is not before the
    last refill: a refill leaves at most [burstSize] tokens, never
    lowers a level that is within the capacity, brings a level at or
    above the capacity to exactly [burstSize], and a second refill at
    the same instant changes nothing. *)
Theorem refill_monotone_and_capped (cfg : config) (now : Z) (s : store) :
  0 <= tps cfg -> lastRefill s <= now ->
  (tokens (refill cfg now s) <= inject_Z (burstSize cfg))%Q
  /\ lastRefill (refill cfg now s) = now
  /\ ((tokens s <= inject_Z (burstSize cfg))%Q ->
      (tokens s <= tokens (refill cfg now s))%Q)
  /\ ((inject_Z (burstSize cfg) <= tokens s)%Q ->
      (tokens (refill cfg now s) == inject_Z (burstSize cfg))%Q)
  /\ (tokens (refill cfg now (refill cfg now s))
      == tokens (refill cfg now s))%Q.
Proof.
  intros Ht Hn. unfold refill. simpl.
  pose proof (elapsed_tokens_nonneg cfg (lastRefill s) now Ht Hn) as A.
  assert (Z0 : (inject_Z (now - now) / 1000 * inject_Z (tps cfg) == 0)%Q).
  { rewrite Z.sub_diag. change (inject_Z 0) with 0%Q. field. }
  set (a := (inject_Z (now - lastRefill s) / 1000 * inject_Z (tps cfg))%Q) in *.
  set (z := (inject_Z (now - now) / 1000 * inject_Z (tps cfg))%Q) in *.
  set (M := inject_Z (burstSize cfg)) in *.
  split; [apply Q.le_min_r|]. split; [reflexivity|].
  split; [|split].
  - intros U. destruct (Q.min_spec (tokens s + a) M) as [[L1 E1]|[L1 E1]];
      rewrite E1; lra.
  - intros U. destruct (Q.min_spec (tokens s + a) M) as [[L1 E1]|[L1 E1]];
      rewrite E1; lra.
  - destruct (Q.min_spec (tokens s + a) M) as [[L1 E1]|[L1 E1]];
      destruct (Q.min_spec (Qmin (tokens s + a) M + z) M) as [[L2 E2]|[L2 E2]];
      rewrite E2; rewrite E1 in L2; try rewrite E1; lra.
Qed.

Lemma refill_monotone_and_capped_witness :
  let cfg := resolveConfig empty_env in
  let s := set_tokens 3 (initialStore cfg 0) in
  (3 <= tokens (refill cfg 700 s))%Q /\ (tokens (refill cfg 700 s) <= 5)%Q.
Proof.
  cbv zeta.
  destruct (refill_monotone_and_capped (resolveConfig empty_env) 700
              (set_tokens 3 (initialStore (resolveConfig empty_env) 0)))
    as (A & _ & B & _); [simpl; lia | simpl; lia |].
  split; [|exact A]. apply B. simpl. discriminate.
Defined.

(** ** The reported token count *)



(** ** Simulated delays *)

Lemma latencyOf_bounds (cfg : config) (r : Q) :
  (0 <= r)%Q -> (r < 1)%Q -> minLatency cfg <= maxLatency cfg ->
  (inject_Z (minLatency cfg) <= latencyOf cfg r)%Q
  /\ (latencyOf cfg r <= inject_Z (maxLatency cfg))%Q.
Proof.
  intros R0 R1 Hm. unfold latencyOf.
  assert (D : (0 <= inject_Z (maxLatency cfg) - inject_Z (minLatency cfg))%Q).
  { rewrite Zle_Qle in Hm. lra. }
  set (m := inject_Z (minLatency cfg)) in *.
  set (M := inject_Z (maxLatency cfg)) in *.
  assert (P0 : (0 <= r * (M - m))%Q) by (apply Qmult_le_0_compat; assumption).
  assert (P1 : (r * (M - m) <= 1 * (M - m))%Q)
    by (apply Qmult_le_compat_r; [apply Qlt_le_weak; exact R1 | exact D]).
  split; lra.
Qed.

(** X14.  For an admitted request, with the latency draw in [0, 1) and
    [minLatency <= maxLatency]: the delay handed to the timer is
    [timeoutDuration] when the request times out, and otherwise a
    latency between [minLatency] and [maxLatency], both included. *)
Theorem simulated_delay_bounds (cfg : config) (now : Z) (d : draws)
    (s s' : store) (p : pending) :
  pay_begin cfg now d s = (s', inr p) ->
  (0 <= r_lat d)%Q -> (r_lat d < 1)%Q -> minLatency cfg <= maxLatency cfg ->
  p_start p = now
  /\ (p_outcome p = TIMEOUT -> p_delay p = inject_Z (timeoutDuration cfg))
  /\ (p_outcome p <> TIMEOUT ->
      (inject_Z (minLatency cfg) <= p_delay p)%Q
      /\ (p_delay p <= inject_Z (maxLatency cfg))%Q).
Proof.
  intros P R0 R1 Hm.
  destruct (pay_begin_cases cfg now d s)
    as [(_ & Q) | [(_ & _ & Q) | (_ & _ & q & Q & St & Ou & De)]];
    rewrite P in Q; try discriminate Q.
  inversion Q; subst q. clear Q.
  destruct (latencyOf_bounds cfg (r_lat d) R0 R1 Hm) as (B1 & B2).
  split; [exact St|]. split.
  - intros E. rewrite De, E. reflexivity.
  - intros E.
    assert (N : p_delay p = latencyOf cfg (r_lat d))
      by (rewrite De; destruct (p_outcome p);
          [contradiction E| | |]; reflexivity).
    rewrite N. split; assumption.
Qed.

Lemma simulated_delay_bounds_witness :
  let cfg := resolveConfig empty_env in
  match pay_begin cfg 0 (draws_for SUCCESS) (initialStore cfg 0) with
  | (_, inr p) => (200 <= p_delay p)%Q /\ (p_delay p <= 800)%Q
  | (_, inl _) => False
  end.
Proof.
  cbv zeta.
  destruct (pay_begin (resolveConfig empty_env) 0 (draws_for SUCCESS)
              (initialStore (resolveConfig empty_env) 0))
    as [s' [r|p]] eqn:E.
  - vm_compute in E. discriminate E.
  - destruct (simulated_delay_bounds _ _ _ _ _ _ E) as (_ & _ & B).
    + simpl. discriminate.
    + simpl. reflexivity.
    + simpl. lia.
    + assert (O : p_outcome p <> TIMEOUT)
        by (vm_compute in E; inversion E; discriminate).
      exact (B O).
Defined.

(** ** Switching a failure mode off *)

Lemma or_default_nonpositive (p : parsed Q) (dflt : Q) :
  (0 < dflt)%Q ->
  ((or_default p dflt <= 0)%Q <-> exists v, p = Num v /\ (v < 0)%Q).
Proof.
  intros Hd. destruct p as [|v]; simpl.
  - split; [intros H; lra | intros (v & E & _); discriminate E].
  - unfold is_zero, Zeroish_Q. destruct (Qeq_bool v 0) eqn:Z0.
    + apply Qeq_bool_iff in Z0. split; [intros H; lra|].
      intros (v' & E & L). inversion E; subst. lra.
    + apply Qeq_bool_neq in Z0. split.
      * intros H. exists v. split; [reflexivity|].
        apply Qle_lteq in H. destruct H as [H|H]; [exact H|contradiction].
      * intros (v' & E & L). inversion E; subst. lra.
Qed.

(** X15.  Since a rate of 0 resolves to the default, a failure mode is
    switched off only by a negative rate: no draw in [0, 1) ever gives
    TIMEOUT exactly when [TIMEOUT_RATE] parses to a negative number, and
    every admitted request succeeds whatever the draws exactly when all
    three rates parse to negative numbers. *)
Theorem failure_mode_off_needs_negative_rate (e : env) :
  let cfg := resolveConfig e in
  ((forall a b c, (0 <= a)%Q -> decide cfg a b c <> TIMEOUT)
   <-> exists v, TIMEOUT_RATE e = Num v /\ (v < 0)%Q)
  /\ ((forall a b c, (0 <= a)%Q -> (0 <= b)%Q -> (0 <= c)%Q ->
         decide cfg a b c = SUCCESS)
      <-> (exists v, TIMEOUT_RATE e = Num v /\ (v < 0)%Q)
          /\ (exists v, PERMANENT_FAILURE_RATE e = Num v /\ (v < 0)%Q)
          /\ (exists v, TRANSIENT_FAILURE_RATE e = Num v /\ (v < 0)%Q)).
Proof.
  cbv zeta.
  rewrite <- (or_default_nonpositive (TIMEOUT_RATE e) (1 # 10)) by reflexivity.
  rewrite <- (or_default_nonpositive (PERMANENT_FAILURE_RATE e) (5 # 100))
    by reflexivity.
  rewrite <- (or_default_nonpositive (TRANSIENT_FAILURE_RATE e) (2 # 10))
    by reflexivity.
  change (or_default (TIMEOUT_RATE e) (1 # 10))
    with (timeoutRate (resolveConfig e)).
  change (or_default (PERMANENT_FAILURE_RATE e) (5 # 100))
    with (permanentFailureRate (resolveConfig e)).
  change (or_default (TRANSIENT_FAILURE_RATE e) (2 # 10))
    with (transientFailureRate (resolveConfig e)).
  set (cfg := resolveConfig e). unfold decide. split; split.
  - intros H. specialize (H 0%Q 0%Q 0%Q (Qle_refl 0)).
    destruct (Qltb 0 (timeoutRate cfg)) eqn:T.
    + contradiction H. reflexivity.
    + apply Qltb_ge in T. exact T.
  - intros H a b c Ha.
    assert (T : Qltb a (timeoutRate cfg) = false) by (apply Qltb_ge; lra).
    rewrite T. destruct (Qltb b _); [discriminate|].
    destruct (Qltb c _); discriminate.
  - intros H. specialize (H 0%Q 0%Q 0%Q (Qle_refl 0) (Qle_refl 0) (Qle_refl 0)).
    destruct (Qltb 0 (timeoutRate cfg)) eqn:T; [discriminate H|].
    destruct (Qltb 0 (permanentFailureRate cfg)) eqn:P; [discriminate H|].
    destruct (Qltb 0 (transientFailureRate cfg)) eqn:F; [discriminate H|].
    apply Qltb_ge in T, P, F. repeat split; assumption.
  - intros (T & P & F) a b c Ha Hb Hc.
    assert (T' : Qltb a (timeoutRate cfg) = false) by (apply Qltb_ge; lra).
    assert (P' : Qltb b (permanentFailureRate cfg) = false)
      by (apply Qltb_ge; lra).
    assert (F' : Qltb c (transientFailureRate cfg) = false)
      by (apply Qltb_ge; lra).
    rewrite T', P', F'. reflexivity.
Qed.

Lemma failure_mode_off_needs_negative_rate_witness :
  decide (resolveConfig env_no_failures) 0 0 0 = SUCCESS
  /\ ~ (forall a b c, (0 <= a)%Q ->
          decide (resolveConfig env_all_zero) a b c <> TIMEOUT).
Proof.
  destruct (failure_mode_off_needs_negative_rate env_no_failures) as [_ [_ B]].
  destruct (failure_mode_off_needs_negative_rate env_all_zero) as [[A _] _].
  split.
  - apply B; [|apply Qle_refl|apply Qle_refl|apply Qle_refl].
    repeat split; eexists; (split; [reflexivity|reflexivity]).
  - intros H. destruct (A H) as (v & E & L).
    inversion E; subst. discriminate L.
Defined.

(** * The load-test client *)

(** ** Batches *)

Lemma batches_bracket (a b : Z) :
  1 <= b ->
  (Harness.batches a b - 1) * b < a /\ a <= Harness.batches a b * b.
Proof.
  intros Hb. unfold Harness.batches.
  set (x := (inject_Z a / inject_Z b)%Q).
  assert (Pb : (0 < inject_Z b)%Q)
    by (change 0%Q with (inject_Z 0); rewrite <- Zlt_Qlt; lia).
  assert (X : (x * inject_Z b == inject_Z a)%Q) by (unfold x; field; lra).
  pose proof (Qle_ceiling x) as U. pose proof (Qceiling_lt x) as L.
  split.
  - rewrite Zlt_Qlt, inject_Z_mult, <- X.
    apply Qmult_lt_compat_r; assumption.
  - rewrite Zle_Qle, inject_Z_mult, <- X.
    apply Qmult_le_compat_r; [exact U | apply Qlt_le_weak; exact Pb].
Qed.

Lemma full_batches (a b : Z) (n : nat) :
  1 <= b ->
  forall start,
    Z.of_nat (start + n) * b <= a ->
    map (fun i => Harness.batchSize a b (Z.of_nat i)) (seq start n)
    = repeat b n.
Proof.
  intros Hb. induction n as [|n IH]; intros start H; [reflexivity|].
  simpl. f_equal.
  - unfold Harness.batchSize. apply Z.min_l. nia.
  - apply IH. replace (S start + n)%nat with (start + S n)%nat by lia. exact H.
Qed.

Lemma sumZ_repeat (b : Z) (n : nat) : sumZ (repeat b n) = Z.of_nat n * b.
Proof.
  unfold sumZ. induction n as [|n IH]; [reflexivity|].
  simpl repeat. simpl fold_right. rewrite IH. lia.
Qed.

(** X16.  For a scenario of [requests >= 0] requests in batches of
    [concurrent >= 1], the batch sizes of the loop add up to [requests],
    and every batch holds between 1 and [concurrent] requests: the script
    sends each configured request once and never an empty batch. *)
Theorem harness_batches_cover_requests (requests concurrent : Z) :
  0 <= requests -> 1 <= concurrent ->
  sumZ (Harness.batchSizes requests concurrent) = requests
  /\ Forall (fun b => 1 <= b <= concurrent)
       (Harness.batchSizes requests concurrent)
  /\ Z.of_nat (List.length (Harness.batchSizes requests concurrent))
     = Harness.batches requests concurrent.
Proof.
  intros Ha Hb.
  destruct (batches_bracket requests concurrent Hb) as [L U].
  unfold Harness.batchSizes.
  set (B := Harness.batches requests concurrent) in *.
  assert (B0 : 0 <= B) by nia.
  destruct (Z.to_nat B) as [|m] eqn:N.
  - assert (B = 0) by lia. simpl. unfold sumZ; simpl.
    split; [nia|]. split; [constructor|lia].
  - assert (Bm : B = Z.of_nat m + 1) by lia.
    rewrite seq_S, map_app. simpl.
    rewrite (full_batches requests concurrent m Hb 0) by (simpl; nia).
    assert (Last : Harness.batchSize requests concurrent (Z.of_nat m)
                   = requests - Z.of_nat m * concurrent)
      by (unfold Harness.batchSize; apply Z.min_r; nia).
    rewrite Last. split; [|split].
    + rewrite sumZ_app, sumZ_repeat. unfold sumZ; simpl. lia.
    + apply Forall_app. split.
      * apply Forall_forall. intros x Hx. apply repeat_spec in Hx. lia.
      * constructor; [nia|constructor].
    + rewrite length_app, repeat_length. simpl. lia.
Qed.

Lemma harness_batches_cover_requests_witness :
  sumZ (Harness.batchSizes 50 20) = 50
  /\ Harness.batches 50 20 = 3.
Proof.
  destruct (harness_batches_cover_requests 50 20) as (A & _ & _);
    [lia | lia |].
  split; [exact A | reflexivity].
Defined.

(** ** Scenario statistics *)

Lemma harness_count_cons (f : Harness.result -> bool) (r : Harness.result)
    (rs : list Harness.result) :
  Harness.count f (r :: rs) = (if f r then 1 else 0) + Harness.count f rs.
Proof.
  unfold Harness.count. simpl filter. destruct (f r); [|lia].
  simpl List.length. rewrite Nat2Z.inj_succ. lia.
Qed.

Lemma harness_count_le (f g : Harness.result -> bool)
    (rs : list Harness.result) :
  (forall r, f r = true -> g r = true) ->
  Harness.count f rs <= Harness.count g rs.
Proof.
  intros H. induction rs as [|r rs IH]; [unfold Harness.count; simpl; lia|].
  rewrite !harness_count_cons.
  destruct (f r) eqn:F; [rewrite (H r F); lia|].
  destruct (g r); lia.
Qed.

Lemma harness_record_counts (rs : list Harness.result) :
  forall st,
    let st' := Harness.record_results rs st in
    Harness.successful st'
    = Harness.successful st + Harness.count Harness.success rs
    /\ Harness.failed st'
       = Harness.failed st
         + Harness.count (fun r => negb (Harness.success r)) rs
    /\ Harness.rateLimited st'
       = Harness.rateLimited st
         + Harness.count
             (fun r => negb (Harness.success r)
                       && Harness.is_code 429 (Harness.http r)) rs
    /\ Harness.timeouts st'
       = Harness.timeouts st
         + Harness.count
             (fun r => negb (Harness.success r)
                       && Harness.is_code 408 (Harness.http r)) rs.
Proof.
  induction rs as [|r rs IH]; intros st; cbv zeta.
  - unfold Harness.count. simpl. repeat split; lia.
  - change (Harness.record_results (r :: rs) st)
      with (Harness.record_results rs (Harness.record_result st r)).
    destruct (IH (Harness.record_result st r)) as (A & B & C & D).
    rewrite A, B, C, D, !harness_count_cons.
    unfold Harness.record_result.
    cbn [Harness.successful Harness.failed Harness.rateLimited
         Harness.timeouts].
    destruct (Harness.success r); cbn [negb andb]; repeat split; try lia.
    + destruct (Harness.is_code 429 (Harness.http r)); lia.
    + destruct (Harness.http r) as [c|]; cbn [Harness.is_code negb andb];
        [|lia].
      destruct (Z.eqb_spec c 429) as [E|E]; cbn [negb andb].
      * subst c. change (429 =? 408) with false. cbv iota. lia.
      * destruct (c =? 408); lia.
Qed.

Lemma harness_count_app (f : Harness.result -> bool)
    (xs ys : list Harness.result) :
  Harness.count f (xs ++ ys) = Harness.count f xs + Harness.count f ys.
Proof.
  unfold Harness.count. rewrite filter_app, length_app. lia.
Qed.

(** The batch loop does to the scenario statistics what one pass over
    all results would, and adds to each global counter its count over
    all results. *)
Lemma harness_run_batches (bs : list (list Harness.result)) :
  forall st g,
    let all := List.concat bs in
    let g' := snd (Harness.run_batches bs (st, g)) in
    fst (Harness.run_batches bs (st, g)) = Harness.record_results all st
    /\ Harness.g_totalRequests g'
       = Harness.g_totalRequests g + Z.of_nat (List.length all)
    /\ Harness.g_successfulRequests g'
       = Harness.g_successfulRequests g + Harness.count Harness.success all
    /\ Harness.g_failedRequests g'
       = Harness.g_failedRequests g
         + Harness.count (fun r => negb (Harness.success r)) all
    /\ Harness.g_rateLimitedRequests g'
       = Harness.g_rateLimitedRequests g
         + Harness.count
             (fun r => negb (Harness.success r)
                       && Harness.is_code 429 (Harness.http r)) all
    /\ Harness.g_timeoutRequests g'
       = Harness.g_timeoutRequests g
         + Harness.count
             (fun r => negb (Harness.success r)
                       && Harness.is_code 408 (Harness.http r)) all.
Proof.
  induction bs as [|b bs IH]; intros st g; cbv zeta.
  - simpl. unfold Harness.count. simpl. repeat split; lia.
  - change (Harness.run_batches (b :: bs) (st, g))
      with (Harness.run_batches bs
              (Harness.record_results b st,
               Harness.update_global (Z.of_nat (List.length b)) b g)).
    destruct (IH (Harness.record_results b st)
                (Harness.update_global (Z.of_nat (List.length b)) b g))
      as (A & T & S & F & R & O).
    rewrite A, T, S, F, R, O.
    simpl List.concat. rewrite !harness_count_app, length_app, Nat2Z.inj_add.
    unfold Harness.record_results. rewrite fold_left_app.
    unfold Harness.update_global.
    cbn [Harness.g_totalRequests Harness.g_successfulRequests
         Harness.g_failedRequests Harness.g_rateLimitedRequests
         Harness.g_timeoutRequests].
    repeat split; lia.
Qed.

(** X17.  After [runScenario] has gone through its batches, with [all]
    the results of all batches: [successful] and [failed] are the
    numbers of successful and unsuccessful results and add up to the
    number of results; [rateLimited] and [timeouts] are the numbers of
    unsuccessful results with status 429 and 408, so together they never
    exceed [failed]; and the global statistics have grown by exactly the
    same numbers. *)
Theorem harness_scenario_counts (bs : list (list Harness.result))
    (g : Harness.globalStats) :
  let all := List.concat bs in
  let st := fst (Harness.run_batches bs (Harness.emptyStats, g)) in
  let g' := snd (Harness.run_batches bs (Harness.emptyStats, g)) in
  Harness.successful st + Harness.failed st = Z.of_nat (List.length all)
  /\ Harness.successful st = Harness.count Harness.success all
  /\ Harness.rateLimited st
     = Harness.count
         (fun r => negb (Harness.success r)
                   && Harness.is_code 429 (Harness.http r)) all
  /\ Harness.timeouts st
     = Harness.count
         (fun r => negb (Harness.success r)
                   && Harness.is_code 408 (Harness.http r)) all
  /\ Harness.rateLimited st + Harness.timeouts st <= Harness.failed st
  /\ Harness.g_totalRequests g'
     = Harness.g_totalRequests g + Harness.successful st + Harness.failed st
  /\ Harness.g_successfulRequests g'
     = Harness.g_successfulRequests g + Harness.successful st
  /\ Harness.g_failedRequests g'
     = Harness.g_failedRequests g + Harness.failed st
  /\ Harness.g_rateLimitedRequests g'
     = Harness.g_rateLimitedRequests g + Harness.rateLimited st
  /\ Harness.g_timeoutRequests g'
     = Harness.g_timeoutRequests g + Harness.timeouts st.
Proof.
  cbv zeta.
  destruct (harness_run_batches bs Harness.emptyStats g)
    as (X & GT & GS & GF & GR & GO).
  rewrite X, GT, GS, GF, GR, GO. clear X GT GS GF GR GO.
  set (rs := List.concat bs).
  destruct (harness_record_counts rs Harness.emptyStats) as (A & B & C & D).
  simpl in A, B, C, D.
  assert (T : Harness.count Harness.success rs
              + Harness.count (fun r => negb (Harness.success r)) rs
              = Z.of_nat (List.length rs)).
  { clear. induction rs as [|r rs IH]; [reflexivity|].
    rewrite !harness_count_cons.
    simpl List.length. rewrite Nat2Z.inj_succ.
    destruct (Harness.success r); cbn [negb]; lia. }
  assert (E : Harness.count
                (fun r => negb (Harness.success r)
                          && Harness.is_code 429 (Harness.http r)) rs
              + Harness.count
                  (fun r => negb (Harness.success r)
                            && Harness.is_code 408 (Harness.http r)) rs
              <= Harness.count (fun r => negb (Harness.success r)) rs).
  { clear. induction rs as [|r rs IH]; [unfold Harness.count; simpl; lia|].
    rewrite !harness_count_cons.
    destruct (Harness.success r); cbn [negb andb]; [lia|].
    destruct (Harness.http r) as [c|]; cbn [Harness.is_code]; [|lia].
    destruct (Z.eqb_spec c 429) as [X|X];
      [subst c; change (429 =? 408) with false; cbv iota; lia|].
    destruct (c =? 408); lia. }
  rewrite A, B, C, D. simpl. repeat split; lia.
Qed.

(** ** The scenario average *)

Lemma harness_record_average (rs : list Harness.result) :
  Forall (fun r => Harness.latency r <> 0) rs ->
  forall st,
    0 <= Harness.successful st + Harness.failed st ->
    let st' := Harness.record_results rs st in
    Harness.successful st' + Harness.failed st'
    = Harness.successful st + Harness.failed st + Z.of_nat (List.length rs)
    /\ (Harness.averageLatency st'
        * inject_Z (Harness.successful st' + Harness.failed st')
        == Harness.averageLatency st
           * inject_Z (Harness.successful st + Harness.failed st)
           + inject_Z (sumZ (Harness.latencies rs)))%Q.
Proof.
  induction 1 as [|r rs Hr _ IH]; intros st Hn; cbv zeta.
  - simpl. split; [lia|]. unfold sumZ; simpl.
    change (inject_Z 0) with 0%Q. ring.
  - change (Harness.record_results (r :: rs) st)
      with (Harness.record_results rs (Harness.record_result st r)).
    assert (N1 : Harness.successful (Harness.record_result st r)
                 + Harness.failed (Harness.record_result st r)
                 = Harness.successful st + Harness.failed st + 1)
      by (simpl; destruct (Harness.success r); simpl; lia).
    destruct (IH (Harness.record_result st r)) as [A B]; [lia|].
    split; [rewrite A, N1; simpl List.length; lia|].
    rewrite B, N1. unfold Harness.latencies. simpl map. rewrite sumZ_cons.
    rewrite (inject_Z_plus (Harness.latency r)).
    assert (S1 : Harness.averageLatency (Harness.record_result st r)
                 = ((Harness.averageLatency st
                     * inject_Z (Harness.successful st + Harness.failed st)
                     + inject_Z (Harness.latency r))
                    / inject_Z (Harness.successful st + Harness.failed st + 1))%Q).
    { simpl. destruct (Z.eqb_spec (Harness.latency r) 0); [contradiction|].
      replace (Harness.successful st
               + (if Harness.success r then 1 else 0)
               + (Harness.failed st
                  + (if negb (Harness.success r) then 1 else 0)) - 1)
        with (Harness.successful st + Harness.failed st)
        by (destruct (Harness.success r); simpl; lia).
      replace (Harness.successful st
               + (if Harness.success r then 1 else 0)
               + (Harness.failed st
                  + (if negb (Harness.success r) then 1 else 0)))
        with (Harness.successful st + Harness.failed st + 1)
        by (destruct (Harness.success r); simpl; lia).
      reflexivity. }
    rewrite S1.
    assert (P : (0 < inject_Z (Harness.successful st + Harness.failed st + 1))%Q)
      by (change 0%Q with (inject_Z 0); rewrite <- Zlt_Qlt; lia).
    set (n1 := inject_Z (Harness.successful st + Harness.failed st + 1)) in *.
    field. lra.
Qed.

(** X18.  After [runScenario] has gone through its batches, when no
    result has a latency of 0 ms and there is at least one result, the
    scenario's [averageLatency] lies between the smallest and the
    largest latency of all results, failed ones included.  A result
    whose latency is 0 is counted but leaves the average as it was. *)
Theorem harness_average_within_latencies (bs : list (list Harness.result))
    (g : Harness.globalStats) (lo hi : Z) :
  let all := List.concat bs in
  let st := fst (Harness.run_batches bs (Harness.emptyStats, g)) in
  Forall (fun r => Harness.latency r <> 0) all -> all <> [] ->
  Forall (fun r => lo <= Harness.latency r <= hi) all ->
  ((inject_Z lo <= Harness.averageLatency st)%Q
   /\ (Harness.averageLatency st <= inject_Z hi)%Q)
  /\ (forall st0 r,
        Harness.latency r = 0 ->
        Harness.averageLatency (Harness.record_result st0 r)
        = Harness.averageLatency st0
        /\ Harness.successful (Harness.record_result st0 r)
           + Harness.failed (Harness.record_result st0 r)
           = Harness.successful st0 + Harness.failed st0 + 1).
Proof.
  cbv zeta. intros F Hne HB. split.
  - destruct (harness_run_batches bs Harness.emptyStats g) as (X & _).
    rewrite X. clear X. set (rs := List.concat bs) in *.
    destruct (harness_record_average rs F Harness.emptyStats) as [A B];
      [simpl; lia|].
    simpl in A, B. rewrite A in B.
    assert (HB' : Forall (fun l => lo <= l <= hi) (Harness.latencies rs)).
    { unfold Harness.latencies. apply Forall_map. exact HB. }
    destruct (sumZ_bounds lo hi _ HB') as [L U].
    unfold Harness.latencies in L, U. rewrite length_map in L, U.
    apply (weighted_mean_bounds _ (Z.of_nat (List.length rs))
             (sumZ (map Harness.latency rs))).
    + destruct rs; [contradiction Hne; reflexivity | simpl; lia].
    + rewrite B. unfold Harness.latencies. ring.
    + exact L.
    + exact U.
  - intros st0 r Z0. simpl. rewrite Z0. simpl.
    split; [reflexivity|]. destruct (Harness.success r); simpl; lia.
Qed.

Lemma harness_average_within_latencies_witness :
  (3 <= Harness.averageLatency
          (fst (Harness.run_batches Harness.sample_batches
                  (Harness.emptyStats,
                   {| Harness.g_totalRequests := 0;
                      Harness.g_successfulRequests := 0;
                      Harness.g_failedRequests := 0;
                      Harness.g_rateLimitedRequests := 0;
                      Harness.g_timeoutRequests := 0 |}))))%Q.
Proof.
  destruct (harness_average_within_latencies Harness.sample_batches
              {| Harness.g_totalRequests := 0;
                 Harness.g_successfulRequests := 0;
                 Harness.g_failedRequests := 0;
                 Harness.g_rateLimitedRequests := 0;
                 Harness.g_timeoutRequests := 0 |} 3 10002)
    as [[A _] _].
  - repeat constructor; discriminate.
  - discriminate.
  - repeat constructor; simpl; lia.
  - exact A.
Defined.
